(** * The task store of App.js, embedded in Rocq

    [src/App.js] keeps a list of tasks in a React state cell and keeps it in
    step with a remote task API through four asynchronous callbacks
    ([refreshTasks], [updateTask], [deleteTask], [addTask]), each built on a
    helper that makes one axios call ([getTasksAsync], [updateTaskAsync],
    [deleteTaskAsync], [addTaskAsync]) and on the renaming helper
    [taskApiToJson].

    The embedding is shallow: JavaScript values live in an explicit heap of
    objects, so that "the same object" is "the same location"; the callbacks
    are functions in a state-and-exception monad over a [world] made of the
    heap, the [tasks] state cell, the requests handed to axios and the lines
    written with [console.log].

    An operation is run from its call to the settling of its one axios
    promise, with the settlement given as an argument; nothing else touches
    the state in between, so the [tasks] a callback closes over and the
    [oldTasks] its updater receives are the same list. *)

From Stdlib Require Import ZArith List.
From stdpp Require Import gmap strings list fin_maps.

Open Scope string_scope.
Open Scope list_scope.

(** ** JavaScript values and the heap *)

Definition loc := nat.

(** Numbers are modelled by integers: the program never computes with them,
    it only compares ids with [===]. [NaN], the one number that is not
    [===] to itself, is outside the model. *)
Inductive value :=
| VUndefined
| VNull
| VBool (b : bool)
| VNum (n : Z)
| VStr (s : string)
| VRef (l : loc).

Global Instance value_eq_dec : EqDecision value.
Proof. solve_decision. Defined.

(** What a location holds: a plain object (its own properties), an array,
    or a [Date] (milliseconds since the epoch). *)
Inductive hobj :=
| HObject (fields : gmap string value)
| HArray (elems : list value)
| HDate (ms : Z).

(** [a === b] on these values: equal primitives, or the same reference. *)
Definition strict_eq (a b : value) : bool := bool_decide (a = b).

(** ToBoolean, as used by [!x] and [x ? a : b]. *)
Definition truthy (v : value) : bool :=
  match v with
  | VUndefined | VNull => false
  | VBool b => b
  | VNum n => negb (Z.eqb n 0)
  | VStr s => negb (String.eqb s "")
  | VRef _ => true
  end.

Definition nullish (v : value) : bool :=
  match v with
  | VUndefined | VNull => true
  | _ => false
  end.

(** [o.k] for a plain object: the own property, or [undefined]. *)
Definition own (o : gmap string value) (k : string) : value :=
  default VUndefined (o !! k).

(** [task.k] for a location: arrays and dates have none of the property
    names this program reads. *)
Definition field (h : gmap loc hobj) (l : loc) (k : string) : value :=
  match h !! l with
  | Some (HObject o) => own o k
  | _ => VUndefined
  end.

(** [v.k] for a value that is neither [null] nor [undefined]; a primitive
    is boxed and has none of the property names this program reads. *)
Definition prop (h : gmap loc hobj) (v : value) (k : string) : value :=
  match v with
  | VRef l => field h l k
  | _ => VUndefined
  end.

(** A template literal, kept as its pieces: literal text and substituted
    values ([${...}]). *)
Inductive piece :=
| Lit (s : string)
| Subst (v : value).

(** What can be thrown: the reason an axios promise rejects with, a
    [TypeError] of the runtime, or [new Error(message)]. *)
Inductive exn :=
| Rejection (reason : value)
| TypeError
| Error (message : list piece).

(** A request handed to axios. *)
Inductive request :=
| Get (url : list piece)
| Patch (url : list piece)
| Delete (url : list piece)
| Post (url : list piece) (body : value).

(** How the promise of an axios call settles. The objects of a parsed
    response body are taken to be in the heap already. *)
Inductive reply :=
| Fulfilled (data : value)
| Rejected (reason : value).

(** A line of [console.log]: [console.log(err)] or [console.log(err.message)]. *)
Inductive logged :=
| LogValue (err : exn)
| LogMessage (err : exn).

(** ** The world and its monad *)

Record world := World {
  heap : gmap loc hobj;
  tasks : list loc;          (* the [tasks] state of [App]: the elements of the current array *)
  sent : list request;       (* the calls made to axios, oldest first *)
  console : list logged;     (* the lines of console.log, oldest first *)
  clock : Z                  (* what [new Date()] reads *)
}.

Inductive outcome (A : Type) :=
| Return (a : A)
| Throw (e : exn).
Arguments Return {A} a.
Arguments Throw {A} e.

Definition M (A : Type) : Type := world → outcome A * world.

Definition ret {A} (a : A) : M A := λ w, (Return a, w).

Definition throw {A} (e : exn) : M A := λ w, (Throw e, w).

Definition bind {A B} (m : M A) (k : A → M B) : M B :=
  λ w, match m w with
       | (Return a, w') => k a w'
       | (Throw e, w') => (Throw e, w')
       end.

(** [try { m } catch (err) { handler err }] *)
Definition try_catch {A} (m : M A) (handler : exn → M A) : M A :=
  λ w, match m w with
       | (Return a, w') => (Return a, w')
       | (Throw e, w') => handler e w'
       end.

Notation "'let*' x ':=' c1 'in' c2" := (bind c1 (λ x, c2))
  (at level 10, x name, c1 at level 100, c2 at level 200).
Notation "c1 ';;' c2" := (bind c1 (λ _, c2))
  (at level 100, c2 at level 200, right associativity).

Definition read {A} (f : world → A) : M A := λ w, (Return (f w), w).

Definition set_heap (h : gmap loc hobj) (w : world) : world :=
  World h (tasks w) (sent w) (console w) (clock w).

Definition set_tasks (ts : list loc) (w : world) : world :=
  World (heap w) ts (sent w) (console w) (clock w).

Definition set_sent (rs : list request) (w : world) : world :=
  World (heap w) (tasks w) rs (console w) (clock w).

Definition set_console (ls : list logged) (w : world) : world :=
  World (heap w) (tasks w) (sent w) ls (clock w).

(** A new object, at a location the heap does not use. *)
Definition alloc (o : hobj) : M loc :=
  λ w, let l := fresh (dom (heap w)) in (Return l, set_heap (<[l := o]> (heap w)) w).

(** [new Date()] *)
Definition new_Date : M value :=
  let* ms := read clock in
  let* l := alloc (HDate ms) in
  ret (VRef l).

(** Reading a property of [v], as destructuring and member access do:
    a [TypeError] when [v] is [null] or [undefined]. *)
Definition get_prop (v : value) (k : string) : M value :=
  if nullish v then throw TypeError else read (λ w, prop (heap w) v k).

Definition console_log (x : logged) : M unit :=
  λ w, (Return tt, set_console (console w ++ [x]) w).

(** [setTasks(newTasks)] *)
Definition setTasks (newTasks : list loc) : M unit :=
  λ w, (Return tt, set_tasks newTasks w).

(** [setTasks(oldTasks => ...)]: the updater sees the current state; its
    callbacks read properties, hence the heap. *)
Definition setTasks_with (updater : gmap loc hobj → list loc → list loc) : M unit :=
  λ w, (Return tt, set_tasks (updater (heap w) (tasks w)) w).

(** [await axios.<method>(...)]: the request goes out, then the promise
    settles as [r] says. The result is [response.data]. *)
Record response := Response { data : value }.

Definition axios (r : reply) (req : request) : M response :=
  λ w, let w' := set_sent (sent w ++ [req]) w in
       match r with
       | Fulfilled d => (Return (Response d), w')
       | Rejected e => (Throw (Rejection e), w')
       end.

(** [xs.map(f)] on the elements of an array, left to right. *)
Fixpoint map_elems (f : value → M loc) (xs : list value) : M (list loc) :=
  match xs with
  | [] => ret []
  | x :: xs' =>
      let* y := f x in
      let* ys := map_elems f xs' in
      ret (y :: ys)
  end.

(** [v.map(f)]: only an array has a [map] to call. *)
Definition array_map (f : value → M loc) (v : value) : M (list loc) :=
  let* arr := read (λ w, match v with
                         | VRef l => match heap w !! l with
                                     | Some (HArray xs) => Some xs
                                     | _ => None
                                     end
                         | _ => None
                         end) in
  match arr with
  | Some xs => map_elems f xs
  | None => throw TypeError
  end.

(** ** App.js *)

Section App.

(** [process.env['REACT_APP_BASE_URL']] *)
Variable kBaseUrl : value.

Definition taskApiToJson (task : value) : M loc :=
  let* description := get_prop task "description" in
  let* id := get_prop task "id" in
  let* isComplete := get_prop task "is_complete" in
  let* title := get_prop task "title" in
  alloc (HObject (<["description" := description]>
                 (<["id" := id]>
                 (<["isComplete" := isComplete]>
                 (<["title" := title]> ∅))))).

Definition getTasksAsync (r : reply) : M (list loc) :=
  try_catch
    (let* response := axios r (Get [Subst kBaseUrl; Lit "/tasks"]) in
     array_map taskApiToJson (data response))
    (λ err,
       console_log (LogValue err);;
       throw (Error [Lit "error fetching tasks"])).

Definition updateTaskAsync (id : value) (markComplete : bool) (r : reply) : M loc :=
  let endpoint := if markComplete then "mark_complete" else "mark_incomplete" in
  try_catch
    (let* response :=
       axios r (Patch [Subst kBaseUrl; Lit "/tasks/"; Subst id; Lit "/";
                       Subst (VStr endpoint)]) in
     let* task := get_prop (data response) "task" in
     taskApiToJson task)
    (λ err,
       console_log (LogValue err);;
       throw (Error [Lit "error updating task "; Subst id])).

Definition deleteTaskAsync (id : value) (r : reply) : M unit :=
  try_catch
    (axios r (Delete [Subst kBaseUrl; Lit "/tasks/"; Subst id]);;
     ret tt)
    (λ err,
       console_log (LogValue err);;
       throw (Error [Lit "error deleting task "; Subst id])).

Definition addTaskAsync (taskData : value) (r : reply) : M loc :=
  let* title := get_prop taskData "title" in
  let* isComplete := get_prop taskData "isComplete" in
  let description := VStr "created in Task List Front End" in
  let* completedAt := if truthy isComplete then new_Date else ret VNull in
  let* body := alloc (HObject (<["title" := title]>
                              (<["description" := description]>
                              (<["completed_at" := completedAt]> ∅)))) in
  try_catch
    (let* response := axios r (Post [Subst kBaseUrl; Lit "/tasks"] (VRef body)) in
     let* task := get_prop (data response) "task" in
     taskApiToJson task)
    (λ err,
       console_log (LogValue err);;
       throw (Error [Lit "error creating task"])).

Definition refreshTasks (r : reply) : M unit :=
  try_catch
    (let* tasks := getTasksAsync r in
     setTasks tasks)
    (λ err, console_log (LogMessage err)).

Definition updateTask (id : value) (r : reply) : M unit :=
  let* task := read (λ w, find (λ task, strict_eq (field (heap w) task "id") id) (tasks w)) in
  match task with
  | None => ret tt
  | Some task =>
      try_catch
        (let* isComplete := read (λ w, field (heap w) task "isComplete") in
         let* newTask := updateTaskAsync id (negb (truthy isComplete)) r in
         setTasks_with (λ h oldTasks,
           map (λ task,
                  if strict_eq (field h task "id") (field h newTask "id")
                  then newTask
                  else task)
               oldTasks))
        (λ err, console_log (LogMessage err))
  end.

Definition deleteTask (id : value) (r : reply) : M unit :=
  try_catch
    (deleteTaskAsync id r;;
     setTasks_with (λ h oldTasks,
       List.filter (λ task, negb (strict_eq (field h task "id") id)) oldTasks))
    (λ err, console_log (LogMessage err)).

Definition addTask (taskData : value) (r : reply) : M unit :=
  try_catch
    (let* task := addTaskAsync taskData r in
     setTasks_with (λ _ oldTasks, oldTasks ++ [task]))
    (λ err, console_log (LogMessage err)).

End App.

(** ** The component

    [App] starts from [useState([])], fetches the list once when it mounts
    ([useEffect(() => { refreshTasks(); }, [])]) and hands [updateTask],
    [deleteTask] and [addTask] to its children as [onToggleCompleteCallback],
    [onDeleteCallback] and [onAddTaskCallback]. *)

Inductive event :=
| Mount
| OnToggleComplete (id : value)
| OnDelete (id : value)
| OnAddTask (taskData : value).

(** The callback an event runs, with the reply its request will get. *)
Definition dispatch (kBaseUrl : value) (ev : event) (r : reply) : M unit :=
  match ev with
  | Mount => refreshTasks kBaseUrl r
  | OnToggleComplete id => updateTask kBaseUrl id r
  | OnDelete id => deleteTask kBaseUrl id r
  | OnAddTask taskData => addTask kBaseUrl taskData r
  end.

(** Events handled one after the other. *)
Fixpoint session (kBaseUrl : value) (evs : list (event * reply)) : M unit :=
  match evs with
  | [] => ret tt
  | (ev, r) :: rest => dispatch kBaseUrl ev r;; session kBaseUrl rest
  end.

(** The world of a component that has just been created: [useState([])],
    nothing sent, nothing logged. *)
Definition created (h : gmap loc hobj) (now : Z) : world := World h [] [] [] now.

(** ** Vocabulary of the statements *)

(** The object [taskApiToJson] builds from [task]: the four properties read
    from it, with [is_complete] stored under [isComplete]. *)
Definition renamed (h : gmap loc hobj) (task : value) : gmap string value :=
  <["description" := prop h task "description"]>
  (<["id" := prop h task "id"]>
  (<["isComplete" := prop h task "is_complete"]>
  (<["title" := prop h task "title"]> ∅))).

(** A value that does not point outside the heap. *)
Definition in_heap (h : gmap loc hobj) (v : value) : Prop :=
  match v with
  | VRef l => is_Some (h !! l)
  | _ => True
  end.

(** The request body [addTaskAsync] builds. *)
Definition create_body (title completedAt : value) : gmap string value :=
  <["title" := title]>
  (<["description" := VStr "created in Task List Front End"]>
  (<["completed_at" := completedAt]> ∅)).

(** [m] run in [w] ends in a [throw]. *)
Definition raises {A} (m : M A) (w : world) : Prop :=
  ∃ e w', m w = (Throw e, w').

(** An operation that ends normally and leaves the collection alone. *)
Definition contained (op : M unit) (w : world) : Prop :=
  ∃ w', op w = (Return tt, w') ∧ tasks w' = tasks w.

(** What [addTaskAsync] has done when its request goes out: the draft was
    unpacked, the timestamp and the body were built, and the POST was handed
    to axios; [w2] is the world at that point. *)
Definition posted (kBaseUrl taskData : value) (w : world) (body : loc) (completedAt : value)
    (w2 : world) : Prop :=
  heap w ⊆ heap w2 ∧
  tasks w2 = tasks w ∧
  console w2 = console w ∧
  sent w2 = sent w ++ [Post [Subst kBaseUrl; Lit "/tasks"] (VRef body)] ∧
  heap w !! body = None ∧
  heap w2 !! body
    = Some (HObject (create_body (prop (heap w) taskData "title") completedAt)) ∧
  if truthy (prop (heap w) taskData "isComplete")
  then ∃ date, completedAt = VRef date ∧ heap w !! date = None ∧
               heap w2 !! date = Some (HDate (clock w))
  else completedAt = VNull.

(** Modelled from the spec: the reverse direction of the renaming transform
    (internal camelCase back to wire snake_case), which App.js does not
    define; it unpacks the four properties, renaming [isComplete] to
    [is_complete], the mirror image of [taskApiToJson]. *)
Definition taskJsonToApi (task : value) : M loc :=
  let* description := get_prop task "description" in
  let* id := get_prop task "id" in
  let* is_complete := get_prop task "isComplete" in
  let* title := get_prop task "title" in
  alloc (HObject (<["description" := description]>
                 (<["id" := id]>
                 (<["is_complete" := is_complete]>
                 (<["title" := title]> ∅))))).

(** ** The scenarios of the specification, as worlds *)

Definition base : value := VStr "http://localhost:5000".

(** [{id:1, title:"A", isComplete:false}] *)
Definition task_A : gmap string value :=
  <["id" := VNum 1]> (<["title" := VStr "A"]> (<["isComplete" := VBool false]> ∅)).

(** The record the server returns for task 1 once marked complete. *)
Definition wire_A : gmap string value :=
  <["id" := VNum 1]> (<["title" := VStr "A"]> (<["description" := VStr ""]>
  (<["is_complete" := VBool true]> ∅))).

(** The draft [{title:"B", isComplete:true}] and the record created from it. *)
Definition draft_B : gmap string value :=
  <["title" := VStr "B"]> (<["isComplete" := VBool true]> ∅).

Definition wire_B : gmap string value :=
  <["id" := VNum 2]> (<["title" := VStr "B"]>
  (<["description" := VStr "created in Task List Front End"]>
  (<["is_complete" := VBool true]> ∅))).

(** The response body [{task: <the record at location 2>}]. *)
Definition task_reply : gmap string value := <["task" := VRef 2]> ∅.

(** Task A in the collection; the response [{task: wire_A}] at location 1. *)
Definition toggle_world : world :=
  World (<[0 := HObject task_A]>
        (<[1 := HObject task_reply]>
        (<[2 := HObject wire_A]> ∅)))
        [0] [] [] 0.

(** An empty collection; the draft at 0, the response [{task: wire_B}] at 1. *)
Definition add_world : world :=
  World (<[0 := HObject draft_B]>
        (<[1 := HObject task_reply]>
        (<[2 := HObject wire_B]> ∅)))
        [] [] [] 1700000000000.

(** Task A in the collection; the response [[wire_A, wire_B]] at location 1. *)
Definition list_world : world :=
  World (<[0 := HObject task_A]>
        (<[1 := HArray [VRef 2; VRef 3]]>
        (<[2 := HObject wire_A]>
        (<[3 := HObject wire_B]> ∅))))
        [0] [] [] 0.

(** ** Toggling, as the specification states it *)

(** What the remote API promises for an update request (section 6 of the
    specification): [PATCH /tasks/{id}/mark_complete] answers with the
    record of task [id] marked complete, [PATCH /tasks/{id}/mark_incomplete]
    with that record marked incomplete. *)
Definition answers (h : gmap loc hobj) (req : request) (rec : value) : Prop :=
  match req with
  | Patch [_; _; Subst id; _; Subst (VStr endpoint)] =>
      prop h rec "id" = id ∧
      prop h rec "is_complete" = VBool (String.eqb endpoint "mark_complete")
  | _ => False
  end.

(** The outcome the specification gives for [toggleComplete(id)] with reply
    [r]: it ends normally, no task is added or removed, every task with
    that id is replaced by one whose [isComplete] is the negation of its
    own, and every other position holds the task it held. *)
Definition toggle_flips (kBaseUrl : value) (w : world) (id : value) (r : reply) : Prop :=
  ∃ w',
    updateTask kBaseUrl id r w = (Return tt, w') ∧
    length (tasks w') = length (tasks w) ∧
    ∀ i t, tasks w !! i = Some t →
      if strict_eq (field (heap w) t "id") id
      then ∃ t', tasks w' !! i = Some t' ∧
                 field (heap w') t' "isComplete"
                   = VBool (negb (truthy (field (heap w) t "isComplete")))
      else tasks w' !! i = Some t.

(** ** Invariants of the collection *)

(** The property names of an object built by [taskApiToJson]. *)
Definition four_keys : gset string :=
  {["description"; "id"; "isComplete"; "title"]}.

(** A location holding an object with exactly those properties. *)
Definition internal_task (h : gmap loc hobj) (t : loc) : Prop :=
  ∃ o, h !! t = Some (HObject o) ∧ dom o = four_keys.

(** Every task of the collection is such an object. *)
Definition well_formed (w : world) : Prop :=
  Forall (internal_task (heap w)) (tasks w).

(** The ids of the collection, in order. *)
Definition ids (w : world) : list value :=
  map (λ task, field (heap w) task "id") (tasks w).

(** A response to the listing that [getTasksAsync] cannot use: no array,
    or an array with a [null] or [undefined] element. *)
Definition malformed_listing (h : gmap loc hobj) (d : value) : Prop :=
  match d with
  | VRef la =>
      match h !! la with
      | Some (HArray xs) => Exists (λ x, nullish x = true) xs
      | _ => True
      end
  | _ => True
  end.

(** A response to an update or a create that cannot be used: no body, or a
    body without a [task]. *)
Definition malformed_task (h : gmap loc hobj) (d : value) : Prop :=
  nullish d = true ∨ nullish (prop h d "task") = true.

(** A collection of well-formed tasks 1 and 2, the response [{task: wire_A}]
    at 2, the listing [[wire_A]] at 4, the draft B at 5 and the response
    [{task: wire_B}] at 7. *)
Definition internal_A : gmap string value :=
  <["description" := VStr ""]> (<["id" := VNum 1]>
  (<["isComplete" := VBool false]> (<["title" := VStr "A"]> ∅))).

Definition internal_B : gmap string value :=
  <["description" := VStr "created in Task List Front End"]> (<["id" := VNum 2]>
  (<["isComplete" := VBool true]> (<["title" := VStr "B"]> ∅))).

Definition store_reply : gmap string value := <["task" := VRef 3]> ∅.

Definition created_reply : gmap string value := <["task" := VRef 6]> ∅.

Definition store_world : world :=
  World (<[0 := HObject internal_A]>
        (<[1 := HObject internal_B]>
        (<[2 := HObject store_reply]>
        (<[3 := HObject wire_A]>
        (<[4 := HArray [VRef 3]]>
        (<[5 := HObject draft_B]>
        (<[6 := HObject wire_B]>
        (<[7 := HObject created_reply]> ∅))))))))
        [0; 1] [] [] 0.

(** Tasks 1 and 2 again, with a server that answers the update of task 1
    by the record as it was, still incomplete. *)
Definition wire_A_stale : gmap string value :=
  <["id" := VNum 1]> (<["title" := VStr "A"]> (<["description" := VStr ""]>
  (<["is_complete" := VBool false]> ∅))).

Definition stale_world : world :=
  World (<[0 := HObject internal_A]>
        (<[1 := HObject internal_B]>
        (<[2 := HObject store_reply]>
        (<[3 := HObject wire_A_stale]> ∅))))
        [0; 1] [] [] 0.

(** A day of the component: it mounts, a toggle fails, a task is added and
    task 1 is removed. *)
Definition busy_day : list (event * reply) :=
  [(Mount, Fulfilled (VRef 4));
   (OnToggleComplete (VNum 1), Rejected VNull);
   (OnAddTask (VRef 5), Fulfilled (VRef 7));
   (OnDelete (VNum 1), Fulfilled VNull)].

(** ** The heap only grows *)

Lemma fresh_unused (h : gmap loc hobj) : h !! fresh (dom h) = None.
Proof. apply not_elem_of_dom, is_fresh. Qed.

Lemma alloc_keeps (h : gmap loc hobj) (o x : hobj) (l : loc) :
  h !! l = Some x → <[fresh (dom h) := o]> h !! l = Some x.
Proof.
  intros Hl. rewrite lookup_insert_ne; [done|].
  intros <-. rewrite fresh_unused in Hl. discriminate.
Qed.

Lemma alloc_grows (h : gmap loc hobj) (o : hobj) : h ⊆ <[fresh (dom h) := o]> h.
Proof. apply insert_subseteq, fresh_unused. Qed.

Lemma field_mono (h h' : gmap loc hobj) (l : loc) (k : string) :
  h ⊆ h' → is_Some (h !! l) → field h' l k = field h l k.
Proof.
  intros Hsub [x Hx]. unfold field.
  by rewrite (lookup_weaken _ _ _ _ Hx Hsub), Hx.
Qed.

Lemma prop_mono (h h' : gmap loc hobj) (v : value) (k : string) :
  h ⊆ h' → in_heap h v → prop h' v k = prop h v k.
Proof. destruct v; simpl; auto using field_mono. Qed.

Lemma renamed_mono (h h' : gmap loc hobj) (v : value) :
  h ⊆ h' → in_heap h v → renamed h' v = renamed h v.
Proof. intros Hsub Hv. unfold renamed. by rewrite !(prop_mono h h' v). Qed.

Lemma in_heap_mono (h h' : gmap loc hobj) (v : value) :
  h ⊆ h' → in_heap h v → in_heap h' v.
Proof.
  destruct v; simpl; auto. intros Hsub [x Hx]. exists x.
  by apply (lookup_weaken _ _ _ _ Hx Hsub).
Qed.

(** ** The renaming helper *)

Lemma own_renamed (h : gmap loc hobj) (v : value) :
  own (renamed h v) "description" = prop h v "description" ∧
  own (renamed h v) "id" = prop h v "id" ∧
  own (renamed h v) "isComplete" = prop h v "is_complete" ∧
  own (renamed h v) "title" = prop h v "title".
Proof. repeat split; reflexivity. Qed.

Lemma taskApiToJson_nullish (task : value) (w : world) :
  nullish task = true → taskApiToJson task w = (Throw TypeError, w).
Proof. intros H. unfold taskApiToJson, bind, get_prop. by rewrite H. Qed.

Lemma taskApiToJson_object (task : value) (w : world) :
  nullish task = false →
  taskApiToJson task w =
    (Return (fresh (dom (heap w))),
     set_heap (<[fresh (dom (heap w)) := HObject (renamed (heap w) task)]> (heap w)) w).
Proof. intros H. unfold taskApiToJson, bind, get_prop. by rewrite H. Qed.

Lemma taskApiToJson_tasks (task : value) (w : world) :
  tasks (taskApiToJson task w).2 = tasks w.
Proof.
  destruct (nullish task) eqn:H.
  - by rewrite taskApiToJson_nullish.
  - by rewrite taskApiToJson_object.
Qed.

(** ** Running the helpers *)

Ltac run :=
  repeat progress
    (unfold new_Date, get_prop, bind, try_catch, read, ret, throw, axios,
       console_log, setTasks, setTasks_with, alloc;
     cbn [fst snd heap tasks sent console clock set_heap set_tasks set_sent
          set_console data]).

Lemma map_elems_tasks (f : value → M loc) (xs : list value) :
  (∀ x w, tasks (f x w).2 = tasks w) →
  ∀ w, tasks (map_elems f xs w).2 = tasks w.
Proof.
  intros Hf. induction xs as [|x xs IH]; intros w; [done|].
  cbn [map_elems]. unfold bind, ret. specialize (Hf x w).
  destruct (f x w) as [[y|e] w1]; cbn [snd] in *; [|done].
  specialize (IH w1).
  destruct (map_elems f xs w1) as [[ys|e] w2]; cbn [snd] in *; congruence.
Qed.

(** Renaming a whole array: one new object per element, in order, each
    holding the renamed properties of its element. *)
Lemma map_elems_taskApiToJson (xs : list value) (h0 : gmap loc hobj) :
  ∀ w, h0 ⊆ heap w →
    Forall (λ x, nullish x = false ∧ in_heap h0 x) xs →
    ∃ ts h',
      map_elems taskApiToJson xs w = (Return ts, set_heap h' w) ∧
      heap w ⊆ h' ∧
      Forall2 (λ t x, heap w !! t = None ∧ h' !! t = Some (HObject (renamed h0 x))) ts xs.
Proof.
  induction xs as [|x xs IH]; intros w Hsub Hxs.
  - exists [], (heap w). split; [by destruct w|]. split; [done|constructor].
  - apply Forall_cons in Hxs as [[Hx Hin] Hxs].
    cbn [map_elems]. unfold bind. rewrite taskApiToJson_object by done.
    set (l := fresh (dom (heap w))).
    set (w1 := set_heap (<[l := HObject (renamed (heap w) x)]> (heap w)) w).
    assert (Hgrow : heap w ⊆ heap w1) by apply alloc_grows.
    destruct (IH w1) as (ts & h' & Hrun & Hsub' & Hts);
      [by etrans|done|].
    rewrite Hrun. exists (l :: ts), h'. split; [done|].
    split; [by etrans|]. constructor.
    + split; [apply fresh_unused|].
      rewrite <- (renamed_mono h0 (heap w) x) by done.
      apply (lookup_weaken _ _ _ _ (lookup_insert_eq _ _ _) Hsub').
    + eapply Forall2_impl; [exact Hts|]. intros t y [Hnew Hobj]. split; [|done].
      destruct (heap w !! t) as [o|] eqn:Ht; [|done].
      by rewrite (lookup_weaken _ _ _ _ Ht Hgrow) in Hnew.
Qed.

Section Helpers.

Variable kBaseUrl : value.

Lemma getTasksAsync_tasks (r : reply) (w : world) :
  tasks (getTasksAsync kBaseUrl r w).2 = tasks w.
Proof.
  unfold getTasksAsync, array_map. run. destruct r as [d|e]; run; [|reflexivity].
  match goal with |- context [match ?o with Some _ => _ | None => _ end _] =>
    destruct o as [xs|] end; [|reflexivity].
  match goal with |- context [map_elems ?f xs ?w1] =>
    pose proof (map_elems_tasks f xs taskApiToJson_tasks w1) as H;
    destruct (map_elems f xs w1) as [[ts|e] w2] end; exact H.
Qed.

Lemma getTasksAsync_rejected (e : value) (w : world) :
  raises (getTasksAsync kBaseUrl (Rejected e)) w.
Proof. unfold raises, getTasksAsync. run. eauto. Qed.

Lemma updateTaskAsync_tasks (id : value) (b : bool) (r : reply) (w : world) :
  tasks (updateTaskAsync kBaseUrl id b r w).2 = tasks w.
Proof.
  unfold updateTaskAsync. run. destruct r as [d|e]; run; [|reflexivity].
  destruct (nullish d); [reflexivity|]. run.
  match goal with |- context [taskApiToJson ?v ?w1] =>
    pose proof (taskApiToJson_tasks v w1) as H;
    destruct (taskApiToJson v w1) as [[t|e] w2] end; exact H.
Qed.

Lemma updateTaskAsync_sent (id : value) (b : bool) (r : reply) (w : world) :
  sent (updateTaskAsync kBaseUrl id b r w).2 =
    sent w ++ [Patch [Subst kBaseUrl; Lit "/tasks/"; Subst id; Lit "/";
                      Subst (VStr (if b then "mark_complete" else "mark_incomplete"))]].
Proof.
  unfold updateTaskAsync. run. destruct r as [d|e]; run; [|reflexivity].
  destruct (nullish d); [reflexivity|]. run.
  destruct (nullish (prop (heap w) d "task")) eqn:Ht.
  - by rewrite taskApiToJson_nullish.
  - by rewrite taskApiToJson_object.
Qed.

Lemma updateTaskAsync_rejected (id : value) (b : bool) (e : value) (w : world) :
  raises (updateTaskAsync kBaseUrl id b (Rejected e)) w.
Proof. unfold raises, updateTaskAsync. run. eauto. Qed.

(** The response [{ task: <record> }] of a successful update. *)
Lemma updateTaskAsync_fulfilled (id : value) (b : bool) (d : value) (w : world) :
  nullish d = false →
  nullish (prop (heap w) d "task") = false →
  ∃ w1,
    updateTaskAsync kBaseUrl id b (Fulfilled d) w = (Return (fresh (dom (heap w))), w1) ∧
    heap w1 = <[fresh (dom (heap w)) := HObject (renamed (heap w) (prop (heap w) d "task"))]> (heap w) ∧
    tasks w1 = tasks w ∧ console w1 = console w.
Proof.
  intros Hd Ht. unfold updateTaskAsync. run. rewrite Hd. run.
  rewrite taskApiToJson_object by done. eauto.
Qed.

Lemma deleteTaskAsync_fulfilled (id d : value) (w : world) :
  deleteTaskAsync kBaseUrl id (Fulfilled d) w =
    (Return tt, set_sent (sent w ++ [Delete [Subst kBaseUrl; Lit "/tasks/"; Subst id]]) w).
Proof. reflexivity. Qed.

Lemma deleteTaskAsync_rejected (id e : value) (w : world) :
  raises (deleteTaskAsync kBaseUrl id (Rejected e)) w.
Proof. unfold raises, deleteTaskAsync. run. eauto. Qed.

Lemma deleteTaskAsync_tasks (id : value) (r : reply) (w : world) :
  tasks (deleteTaskAsync kBaseUrl id r w).2 = tasks w.
Proof. by destruct r. Qed.

Lemma addTaskAsync_tasks (taskData : value) (r : reply) (w : world) :
  tasks (addTaskAsync kBaseUrl taskData r w).2 = tasks w.
Proof.
  unfold addTaskAsync. run. destruct (nullish taskData); [reflexivity|].
  destruct (truthy _); run; (destruct r as [d|e]; run; [|reflexivity]);
    (destruct (nullish d); [reflexivity|]); run;
    match goal with |- context [taskApiToJson ?v ?w1] =>
      pose proof (taskApiToJson_tasks v w1) as H;
      destruct (taskApiToJson v w1) as [[t|e] w2] end; exact H.
Qed.

Lemma addTaskAsync_rejected (taskData e : value) (w : world) :
  raises (addTaskAsync kBaseUrl taskData (Rejected e)) w.
Proof.
  unfold raises, addTaskAsync. run. destruct (nullish taskData); [eauto|].
  destruct (truthy _); run; eauto.
Qed.

End Helpers.

(** ** The store operations *)

Lemma filter_keeps_all {A} (f : A → bool) (l : list A) :
  (∀ x, x ∈ l → f x = true) → List.filter f l = l.
Proof.
  induction l as [|x l IH]; intros Hall; [done|]. cbn [List.filter].
  rewrite (Hall x) by left. f_equal. apply IH. intros y Hy. apply Hall. by right.
Qed.

Section Store.

Variable kBaseUrl : value.

(** Whatever the reply, an operation hands no fault to its caller, and a
    fault of its helper leaves the collection as it was. *)
Lemma refreshTasks_contains (r : reply) (w : world) :
  (∃ w', refreshTasks kBaseUrl r w = (Return tt, w')) ∧
  (raises (getTasksAsync kBaseUrl r) w → contained (refreshTasks kBaseUrl r) w).
Proof.
  unfold contained, raises, refreshTasks, try_catch, bind.
  pose proof (getTasksAsync_tasks kBaseUrl r w) as Ht.
  destruct (getTasksAsync kBaseUrl r w) as [[ts|e] w1]; cbn [snd] in Ht.
  - split; [by eexists|]. by intros (e & w' & ?).
  - split; [by eexists|]. intros _. by eexists.
Qed.

Lemma updateTask_contains (id : value) (r : reply) (w : world) :
  (∃ w', updateTask kBaseUrl id r w = (Return tt, w')) ∧
  ((∃ b, raises (updateTaskAsync kBaseUrl id b r) w) → contained (updateTask kBaseUrl id r) w).
Proof.
  unfold contained, updateTask. run.
  destruct (find _ (tasks w)) as [t0|]; [|split; [|intros _]; by eexists].
  set (b0 := negb _).
  pose proof (updateTaskAsync_tasks kBaseUrl id b0 r w) as Ht.
  destruct (updateTaskAsync kBaseUrl id b0 r w) as [[t|e] w1] eqn:Hrun;
    cbn [snd] in Ht.
  - split; [by eexists|]. intros (b & e & w' & Hb). exfalso.
    revert Hrun Hb. unfold updateTaskAsync. run.
    destruct r as [d|?]; run; [|done]. destruct (nullish d); [done|]. run.
    destruct (nullish (prop (heap w) d "task")) eqn:Hn.
    + by rewrite !taskApiToJson_nullish.
    + by rewrite !taskApiToJson_object.
  - split; [by eexists|]. intros _. by eexists.
Qed.

Lemma deleteTask_contains (id : value) (r : reply) (w : world) :
  (∃ w', deleteTask kBaseUrl id r w = (Return tt, w')) ∧
  (raises (deleteTaskAsync kBaseUrl id r) w → contained (deleteTask kBaseUrl id r) w).
Proof.
  unfold contained, raises. destruct r as [d|e].
  - split; [by eexists|]. by intros (? & ? & ?).
  - split; [by eexists|]. intros _. by eexists.
Qed.

Lemma addTask_contains (taskData : value) (r : reply) (w : world) :
  (∃ w', addTask kBaseUrl taskData r w = (Return tt, w')) ∧
  (raises (addTaskAsync kBaseUrl taskData r) w → contained (addTask kBaseUrl taskData r) w).
Proof.
  unfold contained, raises, addTask, try_catch, bind.
  pose proof (addTaskAsync_tasks kBaseUrl taskData r w) as Ht.
  destruct (addTaskAsync kBaseUrl taskData r w) as [[t|e] w1]; cbn [snd] in Ht.
  - split; [by eexists|]. by intros (e & w' & ?).
  - split; [by eexists|]. intros _. by eexists.
Qed.





End Store.

(** ** Lists and worlds *)

Lemma map_lookup {A B} (g : A → B) (l : list A) (i : nat) :
  map g l !! i = g <$> l !! i.
Proof.
  revert i. induction l as [|x l IH]; intros [|i]; cbn; auto.
Qed.

Lemma map_unchanged {A} (g : A → A) (l : list A) :
  (∀ x, g x = x) → map g l = l.
Proof. intros Hg. induction l as [|x l IH]; cbn; [done|]. by rewrite Hg, IH. Qed.

Lemma filter_sublist_of {A} (f : A → bool) (l : list A) :
  sublist (List.filter f l) l.
Proof.
  induction l as [|x l IH]; cbn; [constructor|].
  destruct (f x); by constructor.
Qed.

Lemma unused_below (h h' : gmap loc hobj) (l : loc) :
  h ⊆ h' → h' !! l = None → h !! l = None.
Proof.
  intros Hsub Hl. destruct (h !! l) as [o|] eqn:Ho; [|done].
  by rewrite (lookup_weaken _ _ _ _ Ho Hsub) in Hl.
Qed.

(** Every object the renaming of an array returns is a new one. *)
Lemma map_elems_fresh (xs : list value) :
  ∀ w ts w1,
    map_elems taskApiToJson xs w = (Return ts, w1) →
    heap w ⊆ heap w1 ∧ Forall (λ t, heap w !! t = None) ts.
Proof.
  induction xs as [|x xs IH]; intros w ts w1.
  - intros [= <- <-]. by split.
  - cbn [map_elems]. unfold bind, ret. destruct (nullish x) eqn:Hx.
    { by rewrite taskApiToJson_nullish. }
    rewrite taskApiToJson_object by done.
    set (w0 := set_heap _ w).
    destruct (map_elems taskApiToJson xs w0) as [[ys|e] w2] eqn:Hrun; [|done].
    intros [= <- <-]. destruct (IH w0 ys w2 Hrun) as [Hsub Hys].
    assert (Hgrow : heap w ⊆ heap w0) by apply alloc_grows.
    split; [by etrans|]. constructor; [apply fresh_unused|].
    eapply Forall_impl; [exact Hys|]. intros t Ht. by eapply unused_below.
Qed.

(** The renaming helper does not look at the collection. *)
Lemma map_elems_ignores_tasks (xs : list value) (ts0 : list loc) :
  ∀ w, map_elems taskApiToJson xs (set_tasks ts0 w) =
       let (o, w') := map_elems taskApiToJson xs w in (o, set_tasks ts0 w').
Proof.
  induction xs as [|x xs IH]; intros w; [done|].
  cbn [map_elems]. unfold bind. destruct (nullish x) eqn:Hx.
  - by rewrite !taskApiToJson_nullish.
  - rewrite !taskApiToJson_object by done.
    change (heap (set_tasks ts0 w)) with (heap w).
    set (w1 := set_heap _ w).
    change (set_heap _ (set_tasks ts0 w)) with (set_tasks ts0 w1).
    rewrite IH. by destruct (map_elems taskApiToJson xs w1) as [[ys|e] w2].
Qed.

Section Sync.

Variable kBaseUrl : value.

Lemma getTasksAsync_ignores_tasks (r : reply) (ts0 : list loc) (w : world) :
  getTasksAsync kBaseUrl r (set_tasks ts0 w) =
    let (o, w') := getTasksAsync kBaseUrl r w in (o, set_tasks ts0 w').
Proof.
  unfold getTasksAsync, array_map. run. destruct r as [d|e]; run; [|done].
  match goal with |- context [match ?o with Some _ => _ | None => _ end _] =>
    destruct o as [xs|] end; [|done].
  match goal with |- context [map_elems _ xs (set_sent ?s (set_tasks _ _))] =>
    change (set_sent s (set_tasks ts0 w)) with (set_tasks ts0 (set_sent s w));
    rewrite map_elems_ignores_tasks;
    destruct (map_elems taskApiToJson xs (set_sent s w)) as [[ys|e] w2] end;
    done.
Qed.

Lemma getTasksAsync_fresh (r : reply) (w : world) (ts : list loc) (w1 : world) :
  getTasksAsync kBaseUrl r w = (Return ts, w1) →
  Forall (λ t, heap w !! t = None) ts.
Proof.
  unfold getTasksAsync, array_map. run. destruct r as [d|e]; run; [|done].
  match goal with |- context [match ?o with Some _ => _ | None => _ end _] =>
    destruct o as [xs|] end; [|done].
  match goal with |- context [map_elems _ xs ?w0] =>
    destruct (map_elems taskApiToJson xs w0) as [[ys|e] w2] eqn:Hrun end; [|done].
  intros [= <- <-]. by destruct (map_elems_fresh _ _ _ _ Hrun).
Qed.

(** The response of a successful listing: an array of records. *)
Lemma getTasksAsync_fulfilled (la : loc) (xs : list value) (w : world) :
  heap w !! la = Some (HArray xs) →
  Forall (λ x, nullish x = false ∧ in_heap (heap w) x) xs →
  ∃ ts w1,
    getTasksAsync kBaseUrl (Fulfilled (VRef la)) w = (Return ts, w1) ∧
    tasks w1 = tasks w ∧ console w1 = console w ∧
    sent w1 = sent w ++ [Get [Subst kBaseUrl; Lit "/tasks"]] ∧
    Forall2 (λ t x, heap w !! t = None ∧
                    heap w1 !! t = Some (HObject (renamed (heap w) x))) ts xs.
Proof.
  intros Hla Hxs. unfold getTasksAsync, array_map. run. rewrite Hla.
  match goal with |- context [map_elems _ xs ?w0] =>
    destruct (map_elems_taskApiToJson xs (heap w) w0) as (ts & h' & Hrun & _ & Hts);
      [done|done|]; rewrite Hrun end.
  by exists ts, (set_heap h' (set_sent (sent w ++ [Get [Subst kBaseUrl; Lit "/tasks"]]) w)).
Qed.



End Sync.

Section Create.

Variable kBaseUrl : value.


Lemma addTaskAsync_run (taskData : value) (r : reply) (w : world) :
  nullish taskData = false →
  ∃ body completedAt w2,
    posted kBaseUrl taskData w body completedAt w2 ∧
    addTaskAsync kBaseUrl taskData r w =
      match r with
      | Rejected e =>
          (Throw (Error [Lit "error creating task"]),
           set_console (console w2 ++ [LogValue (Rejection e)]) w2)
      | Fulfilled d =>
          if nullish d || nullish (prop (heap w2) d "task")
          then (Throw (Error [Lit "error creating task"]),
                set_console (console w2 ++ [LogValue TypeError]) w2)
          else (Return (fresh (dom (heap w2))),
                set_heap (<[fresh (dom (heap w2))
                            := HObject (renamed (heap w2) (prop (heap w2) d "task"))]>
                          (heap w2)) w2)
      end.
Proof.
  intros Hdraft. unfold addTaskAsync, posted. run. rewrite Hdraft. run.
  destruct (truthy (prop (heap w) taskData "isComplete")); run.
  - set (date := fresh (dom (heap w))).
    set (h1 := <[date := HDate (clock w)]> (heap w)).
    set (body := fresh (dom h1)).
    set (o := HObject _).
    exists body, (VRef date),
      (set_sent (sent w ++ [Post [Subst kBaseUrl; Lit "/tasks"] (VRef body)])
         (set_heap (<[body := o]> h1) w)).
    cbn [heap tasks sent console set_sent set_heap].
    assert (Hsub : heap w ⊆ h1) by apply alloc_grows.
    assert (Hsub' : h1 ⊆ <[body := o]> h1) by apply alloc_grows.
    split_and!; try done.
    + by etrans.
    + eapply unused_below; [exact Hsub|apply fresh_unused].
    + apply lookup_insert_eq.
    + exists date. split_and!; [done|apply fresh_unused|].
      apply (lookup_weaken _ _ _ _ (lookup_insert_eq _ _ _) Hsub').
    + destruct r as [d|e]; run; [|done]. destruct (nullish d); run; [done|].
      cbn [orb]. destruct (nullish (prop _ d "task")) eqn:Ht.
      * by rewrite taskApiToJson_nullish.
      * by rewrite taskApiToJson_object.
  - set (body := fresh (dom (heap w))).
    set (o := HObject _).
    exists body, VNull,
      (set_sent (sent w ++ [Post [Subst kBaseUrl; Lit "/tasks"] (VRef body)])
         (set_heap (<[body := o]> (heap w)) w)).
    cbn [heap tasks sent console set_sent set_heap].
    split_and!; try done.
    + apply alloc_grows.
    + apply fresh_unused.
    + apply lookup_insert_eq.
    + destruct r as [d|e]; run; [|done]. destruct (nullish d); run; [done|].
      cbn [orb]. destruct (nullish (prop _ d "task")) eqn:Ht.
      * by rewrite taskApiToJson_nullish.
      * by rewrite taskApiToJson_object.
Qed.

End Create.

(** ** The scenarios, run *)

(** [toggleComplete(1)] on [[{id:1,title:"A",isComplete:false}]]: one PATCH
    to [mark_complete], and the collection is the one new object made from
    the returned record. *)
Example toggle_scenario :
  let w' := (updateTask base (VNum 1) (Fulfilled (VRef 1)) toggle_world).2 in
  tasks w' = [3] ∧
  field (heap w') 3 "id" = VNum 1 ∧
  field (heap w') 3 "title" = VStr "A" ∧
  field (heap w') 3 "description" = VStr "" ∧
  field (heap w') 3 "isComplete" = VBool true ∧
  sent w' = [Patch [Subst base; Lit "/tasks/"; Subst (VNum 1); Lit "/";
                    Subst (VStr "mark_complete")]] ∧
  console w' = [].
Proof. vm_compute. by repeat split. Qed.

(** [add({title:"B", isComplete:true})] on the empty collection. *)
Example add_scenario :
  let w' := (addTask base (VRef 0) (Fulfilled (VRef 1)) add_world).2 in
  tasks w' = [5] ∧
  field (heap w') 5 "id" = VNum 2 ∧
  field (heap w') 5 "isComplete" = VBool true ∧
  sent w' = [Post [Subst base; Lit "/tasks"] (VRef 4)] ∧
  field (heap w') 4 "title" = VStr "B" ∧
  field (heap w') 4 "description" = VStr "created in Task List Front End" ∧
  field (heap w') 4 "completed_at" = VRef 3 ∧
  heap w' !! 3 = Some (HDate 1700000000000).
Proof. vm_compute. by repeat split. Qed.

(** [remove(5)] when the call fails: the collection stays, two lines are
    logged. *)
Example remove_fault_scenario :
  let w' := (deleteTask base (VNum 5) (Rejected VNull) toggle_world).2 in
  tasks w' = [0] ∧
  heap w' = heap toggle_world ∧
  console w' = [LogValue (Rejection VNull);
                LogMessage (Error [Lit "error deleting task "; Subst (VNum 5)])].
Proof. vm_compute. by repeat split. Qed.

(** [refresh()] over a collection holding task A: two new objects, in the
    order of the response. *)
Example refresh_scenario :
  let w' := (refreshTasks base (Fulfilled (VRef 1)) list_world).2 in
  tasks w' = [4; 5] ∧
  field (heap w') 4 "id" = VNum 1 ∧
  field (heap w') 5 "id" = VNum 2 ∧
  field (heap w') 5 "isComplete" = VBool true.
Proof. vm_compute. by repeat split. Qed.

(** A draft that cannot be unpacked: no request goes out, the [TypeError]
    is caught and its message logged. *)
Example add_null_draft :
  addTask base VNull (Fulfilled (VRef 1)) add_world
    = (Return tt, set_console [LogMessage TypeError] add_world).
Proof. reflexivity. Qed.

(** With unique keys, the element [find] returns is the only one with
    its key. *)
Lemma find_unique {A} (f : A → value) (v : value) (l : list A) (x0 : A) (i : nat) (x : A) :
  find (λ y, strict_eq (f y) v) l = Some x0 →
  NoDup (map f l) →
  l !! i = Some x →
  strict_eq (f x) v = true →
  x = x0.
Proof.
  intros Hfind Hnd Hi Hx.
  apply find_some in Hfind as [Hin H0]. apply list_elem_of_In in Hin.
  apply list_elem_of_lookup in Hin as [j Hj].
  apply bool_decide_eq_true in Hx, H0.
  assert (i = j) as ->; [|congruence].
  eapply NoDup_lookup; [exact Hnd| |]; rewrite map_lookup.
  - by rewrite Hi.
  - rewrite Hj. cbn. congruence.
Qed.

(** ** The claims *)

Section Claims.

Variable kBaseUrl : value.

(** C1: when the listing succeeds with an array of records, [refresh] ends
    normally and the collection becomes one new object per record, in the
    order of the array, each holding the renamed properties of its record.
    Nothing of the prior collection enters the result: every task of the new
    collection is an object that did not exist before, and starting from any
    other collection gives the same one. *)
Theorem C1_refresh_overwrites (w : world) (la : loc) (xs : list value) :
  heap w !! la = Some (HArray xs) →
  Forall (λ x, nullish x = false ∧ in_heap (heap w) x) xs →
  ∃ w',
    refreshTasks kBaseUrl (Fulfilled (VRef la)) w = (Return tt, w') ∧
    Forall2 (λ t x, heap w' !! t = Some (HObject (renamed (heap w) x))) (tasks w') xs ∧
    Forall (λ t, heap w !! t = None) (tasks w') ∧
    (∀ prior, tasks (refreshTasks kBaseUrl (Fulfilled (VRef la)) (set_tasks prior w)).2
              = tasks w').
Proof.
  intros Hla Hxs.
  destruct (getTasksAsync_fulfilled kBaseUrl la xs w Hla Hxs) as (ts & w1 & Hrun & _ & _ & _ & Hts).
  exists (set_tasks ts w1). split_and!.
  - unfold refreshTasks. run. by rewrite Hrun.
  - eapply Forall2_impl; [exact Hts|]. by intros t x [_ ?].
  - cbn [tasks set_tasks]. clear -Hts. induction Hts as [|t x ts xs [Hnew _] _ IH]; by constructor.
  - intros prior. unfold refreshTasks. run.
    rewrite getTasksAsync_ignores_tasks, Hrun. done.
Qed.

(** C2: each of [refresh], [toggleComplete], [remove] and [add] contains
    the faults of its remote call. When the promise of the call is rejected
    (first four parts), the operation ends normally, the collection is the
    one from before the call, and a call that went out left two lines in the
    console (the raw fault, then the message of the simplified one). The
    same holds for any fault the helper raises, a malformed response
    included (last four parts), and no reply at all makes an operation
    throw. *)
Theorem C2_faults_are_contained (w : world) :
  (∀ e, contained (refreshTasks kBaseUrl (Rejected e)) w) ∧
  (∀ e id, contained (updateTask kBaseUrl id (Rejected e)) w) ∧
  (∀ e id, contained (deleteTask kBaseUrl id (Rejected e)) w) ∧
  (∀ e taskData, contained (addTask kBaseUrl taskData (Rejected e)) w) ∧
  (∀ e, console (refreshTasks kBaseUrl (Rejected e) w).2 =
          console w ++ [LogValue (Rejection e);
                        LogMessage (Error [Lit "error fetching tasks"])]) ∧
  (∀ e id, console (deleteTask kBaseUrl id (Rejected e) w).2 =
          console w ++ [LogValue (Rejection e);
                        LogMessage (Error [Lit "error deleting task "; Subst id])]) ∧
  (∀ e id t0,
     find (λ task, strict_eq (field (heap w) task "id") id) (tasks w) = Some t0 →
     console (updateTask kBaseUrl id (Rejected e) w).2 =
          console w ++ [LogValue (Rejection e);
                        LogMessage (Error [Lit "error updating task "; Subst id])]) ∧
  (∀ e taskData,
     nullish taskData = false →
     console (addTask kBaseUrl taskData (Rejected e) w).2 =
          console w ++ [LogValue (Rejection e);
                        LogMessage (Error [Lit "error creating task"])]) ∧
  (∀ r, (∃ w', refreshTasks kBaseUrl r w = (Return tt, w')) ∧
        (raises (getTasksAsync kBaseUrl r) w → contained (refreshTasks kBaseUrl r) w)) ∧
  (∀ r id, (∃ w', updateTask kBaseUrl id r w = (Return tt, w')) ∧
        ((∃ b, raises (updateTaskAsync kBaseUrl id b r) w) →
         contained (updateTask kBaseUrl id r) w)) ∧
  (∀ r id, (∃ w', deleteTask kBaseUrl id r w = (Return tt, w')) ∧
        (raises (deleteTaskAsync kBaseUrl id r) w → contained (deleteTask kBaseUrl id r) w)) ∧
  (∀ r taskData, (∃ w', addTask kBaseUrl taskData r w = (Return tt, w')) ∧
        (raises (addTaskAsync kBaseUrl taskData r) w →
         contained (addTask kBaseUrl taskData r) w)).
Proof.
  split_and!.
  - intros e. apply refreshTasks_contains, getTasksAsync_rejected.
  - intros e id. apply updateTask_contains.
    exists true. apply updateTaskAsync_rejected.
  - intros e id. apply deleteTask_contains, deleteTaskAsync_rejected.
  - intros e taskData. apply addTask_contains, addTaskAsync_rejected.
  - intros e. unfold refreshTasks, getTasksAsync. run.
    by rewrite <- app_assoc.
  - intros e id. unfold deleteTask, deleteTaskAsync. run.
    by rewrite <- app_assoc.
  - intros e id t0 Hfind. unfold updateTask, updateTaskAsync. run.
    rewrite Hfind. run. by rewrite <- app_assoc.
  - intros e taskData Hdraft.
    destruct (addTaskAsync_run kBaseUrl taskData (Rejected e) w Hdraft)
      as (body & completedAt & w2 & (_ & _ & Hconsole & _) & Hrun).
    unfold addTask. run. rewrite Hrun. run.
    by rewrite Hconsole, <- app_assoc.
  - intros r. apply refreshTasks_contains.
  - intros r id. apply updateTask_contains.
  - intros r id. apply deleteTask_contains.
  - intros r taskData. apply addTask_contains.
Qed.

(** C3: when a task with the given id is present, the update succeeds
    with a record, and that record answers the request this call sent (it
    is the record of the id in the URL, with the completion value of the
    endpoint called), [toggleComplete] ends normally, having sent the
    request for the negation of the [isComplete] it observed, with a
    collection of the same length in which every position that held a task
    with that id holds one new object, the renamed record, whose
    [isComplete] is that negation, and every other position holds the very
    location it held before; no object that existed before is changed.
    With unique ids this is the outcome the specification states. *)
Theorem C3_toggle_flips_when_answered
    (w : world) (id : value) (t0 ld : loc) (d : gmap string value) :
  find (λ task, strict_eq (field (heap w) task "id") id) (tasks w) = Some t0 →
  heap w !! ld = Some (HObject d) →
  nullish (own d "task") = false →
  (∀ req, last (sent (updateTask kBaseUrl id (Fulfilled (VRef ld)) w).2) = Some req →
          answers (heap w) req (own d "task")) →
  ∃ newTask w',
    updateTask kBaseUrl id (Fulfilled (VRef ld)) w = (Return tt, w') ∧
    sent w' = sent w ++
      [Patch [Subst kBaseUrl; Lit "/tasks/"; Subst id; Lit "/";
              Subst (VStr (if negb (truthy (field (heap w) t0 "isComplete"))
                           then "mark_complete" else "mark_incomplete"))]] ∧
    heap w !! newTask = None ∧
    heap w' = <[newTask := HObject (renamed (heap w) (own d "task"))]> (heap w) ∧
    field (heap w') newTask "isComplete"
      = VBool (negb (truthy (field (heap w) t0 "isComplete"))) ∧
    length (tasks w') = length (tasks w) ∧
    (∀ i t, tasks w !! i = Some t →
       tasks w' !! i = Some (if strict_eq (field (heap w) t "id") id then newTask else t)) ∧
    (∀ l, l ≠ newTask → heap w' !! l = heap w !! l) ∧
    (NoDup (ids w) → toggle_flips kBaseUrl w id (Fulfilled (VRef ld))).
Proof.
  intros Hfind Hld Htask Hanswer.
  assert (Hrec : prop (heap w) (VRef ld) "task" = own d "task").
  { cbn [prop]. unfold field. by rewrite Hld. }
  set (target := negb (truthy (field (heap w) t0 "isComplete"))) in *.
  destruct (updateTaskAsync_fulfilled kBaseUrl id target (VRef ld) w)
    as (w1 & Hrun & Hheap & Htasks & _); [done|by rewrite Hrec|].
  pose proof (updateTaskAsync_sent kBaseUrl id target (Fulfilled (VRef ld)) w) as Hsent.
  rewrite Hrun in Hsent. cbn [snd] in Hsent.
  rewrite Hrec in Hheap.
  set (newTask := fresh (dom (heap w))) in *.
  assert (Hop : updateTask kBaseUrl id (Fulfilled (VRef ld)) w
                = (Return tt,
                   set_tasks
                     (map (λ task, if strict_eq (field (heap w1) task "id")
                                                (field (heap w1) newTask "id")
                                   then newTask else task) (tasks w1)) w1)).
  { unfold updateTask. run. rewrite Hfind. fold target. rewrite Hrun. reflexivity. }
  (* the record is the answer to the request that went out *)
  assert (Hcontract : prop (heap w) (own d "task") "id" = id ∧
                      prop (heap w) (own d "task") "is_complete" = VBool target).
  { specialize (Hanswer (Patch [Subst kBaseUrl; Lit "/tasks/"; Subst id; Lit "/";
        Subst (VStr (if target then "mark_complete" else "mark_incomplete"))])).
    rewrite Hop in Hanswer. cbn [snd sent set_tasks] in Hanswer.
    rewrite Hsent, last_snoc in Hanswer. specialize (Hanswer eq_refl).
    cbn [answers] in Hanswer. destruct Hanswer as [Hid Hflag]. split; [done|].
    rewrite Hflag. by destruct target. }
  destruct Hcontract as [Hid Hflag].
  assert (Hnew : ∀ k, field (heap w1) newTask k = own (renamed (heap w) (own d "task")) k).
  { intros k. unfold field. by rewrite Hheap, lookup_insert_eq. }
  assert (Hcomplete : field (heap w1) newTask "isComplete" = VBool target).
  { rewrite Hnew. by destruct (own_renamed (heap w) (own d "task")) as (_ & _ & -> & _). }
  assert (Hpos : ∀ i t, tasks w !! i = Some t →
            map (λ task, if strict_eq (field (heap w1) task "id")
                                      (field (heap w1) newTask "id")
                         then newTask else task) (tasks w1) !! i
            = Some (if strict_eq (field (heap w) t "id") id then newTask else t)).
  { intros i t Hi. rewrite Htasks, map_lookup, Hi. cbn [fmap option_fmap option_map].
    f_equal. rewrite (Hnew "id").
    destruct (own_renamed (heap w) (own d "task")) as (_ & -> & _). rewrite Hid.
    destruct (decide (t = newTask)) as [->|Hne]; [by repeat case_match|].
    unfold field at 1. by rewrite Hheap, lookup_insert_ne. }
  eexists newTask, _. split; [exact Hop|].
  cbn [heap tasks sent set_tasks]. split_and!.
  - done.
  - apply fresh_unused.
  - done.
  - done.
  - rewrite Htasks. apply length_map.
  - done.
  - intros l Hl. by rewrite Hheap, lookup_insert_ne.
  - intros Hnd. eexists. split; [exact Hop|]. cbn [heap tasks set_tasks]. split.
    { rewrite Htasks. apply length_map. }
    intros i t Hi. rewrite (Hpos i t Hi).
    destruct (strict_eq (field (heap w) t "id") id) eqn:Heq; [|done].
    exists newTask. split; [done|]. rewrite Hcomplete. unfold target.
    by rewrite (find_unique (λ task, field (heap w) task "id") id (tasks w) t0 i t).
Qed.

(** C4: when no task of the collection has the given id, [toggleComplete]
    returns at once: the whole world is as before, so the collection is
    unchanged and nothing was handed to axios. *)
Theorem C4_toggle_absent_is_noop (w : world) (id : value) (r : reply) :
  (∀ t, t ∈ tasks w → field (heap w) t "id" ≠ id) →
  updateTask kBaseUrl id r w = (Return tt, w) ∧
  tasks (updateTask kBaseUrl id r w).2 = tasks w ∧
  sent (updateTask kBaseUrl id r w).2 = sent w.
Proof.
  intros Habs.
  assert (Hfind : find (λ task, strict_eq (field (heap w) task "id") id) (tasks w) = None).
  { destruct (find _ _) as [t|] eqn:Hf; [|done].
    apply find_some in Hf as [Hin Heq]. apply list_elem_of_In in Hin.
    apply bool_decide_eq_true in Heq. by destruct (Habs t Hin). }
  assert (Hrun : updateTask kBaseUrl id r w = (Return tt, w)).
  { unfold updateTask. run. by rewrite Hfind. }
  by rewrite Hrun.
Qed.

(** C5: [toggleComplete] on a present task sends exactly one request, a
    PATCH whose target is the negation of the [isComplete] of the task that
    [find] observed, whatever the reply turns out to be: the URL ends in
    [mark_complete] when the target is true and in [mark_incomplete] when it
    is false, and these are two different endpoints. *)
Theorem C5_toggle_requests_opposite (w : world) (id : value) (t0 : loc) (r : reply) :
  find (λ task, strict_eq (field (heap w) task "id") id) (tasks w) = Some t0 →
  let target := negb (truthy (field (heap w) t0 "isComplete")) in
  sent (updateTask kBaseUrl id r w).2 =
    sent w ++ [Patch [Subst kBaseUrl; Lit "/tasks/"; Subst id; Lit "/";
                      Subst (VStr (if target then "mark_complete" else "mark_incomplete"))]] ∧
  "mark_complete" ≠ "mark_incomplete".
Proof.
  intros Hfind target. split; [|done].
  unfold updateTask. run. rewrite Hfind. fold target.
  pose proof (updateTaskAsync_sent kBaseUrl id target r w) as Hs.
  destruct (updateTaskAsync kBaseUrl id target r w) as [[t|e] w1]; exact Hs.
Qed.

(** C6: a successful [remove] keeps exactly the tasks whose id differs from
    the given one, in their order: no task with that id is left, every task
    with another id is still there, and when no task had that id the
    collection is the same as before and the operation still ends normally. *)
Theorem C6_remove_drops_every_match (w : world) (id d : value) :
  ∃ w',
    deleteTask kBaseUrl id (Fulfilled d) w = (Return tt, w') ∧
    heap w' = heap w ∧
    tasks w' = List.filter (λ task, negb (strict_eq (field (heap w) task "id") id)) (tasks w) ∧
    (∀ t, t ∈ tasks w' → field (heap w') t "id" ≠ id) ∧
    (∀ t, t ∈ tasks w' ↔ t ∈ tasks w ∧ field (heap w) t "id" ≠ id) ∧
    ((∀ t, t ∈ tasks w → field (heap w) t "id" ≠ id) → tasks w' = tasks w).
Proof.
  eexists. split; [reflexivity|]. cbn [heap tasks set_tasks set_sent].
  assert (Hmem : ∀ t,
    t ∈ List.filter (λ task, negb (strict_eq (field (heap w) task "id") id)) (tasks w)
    ↔ t ∈ tasks w ∧ field (heap w) t "id" ≠ id).
  { intros t. rewrite list_elem_of_In, filter_In, <- list_elem_of_In.
    unfold strict_eq. rewrite negb_true_iff, bool_decide_eq_false. done. }
  split; [done|]. split; [done|]. split; [|split; [done|]].
  - intros t Ht. by destruct (proj1 (Hmem t) Ht) as [_ ?].
  - intros Habs. apply filter_keeps_all. intros t Ht.
    unfold strict_eq. rewrite negb_true_iff, bool_decide_eq_false. auto.
Qed.

(** C7: when the draft can be unpacked and the create call succeeds with a
    record, [add] ends normally and the collection is the prior one followed
    by exactly one task: a new object holding the renamed properties of the
    returned record, its id the one the server returned. *)
Theorem C7_add_appends_one
    (w : world) (taskData : value) (ld : loc) (d : gmap string value) :
  nullish taskData = false →
  heap w !! ld = Some (HObject d) →
  nullish (own d "task") = false →
  in_heap (heap w) (own d "task") →
  ∃ task w',
    addTask kBaseUrl taskData (Fulfilled (VRef ld)) w = (Return tt, w') ∧
    tasks w' = tasks w ++ [task] ∧
    heap w !! task = None ∧
    heap w' !! task = Some (HObject (renamed (heap w) (own d "task"))) ∧
    field (heap w') task "id" = prop (heap w) (own d "task") "id".
Proof.
  intros Hdraft Hld Htask Hin.
  destruct (addTaskAsync_run kBaseUrl taskData (Fulfilled (VRef ld)) w Hdraft)
    as (body & completedAt & w2 & (Hsub & Htasks & _) & Hrun).
  assert (Hrec : prop (heap w2) (VRef ld) "task" = own d "task").
  { cbn [prop]. unfold field. by rewrite (lookup_weaken _ _ _ _ Hld Hsub). }
  rewrite Hrec, Htask in Hrun. cbn [nullish orb] in Hrun.
  rewrite (renamed_mono (heap w) (heap w2)) in Hrun by done.
  set (task := fresh (dom (heap w2))) in *.
  eexists task, _. split.
  { unfold addTask. run. rewrite Hrun. reflexivity. }
  cbn [heap tasks set_tasks set_heap]. rewrite Htasks. split_and!.
  - done.
  - eapply unused_below; [exact Hsub|apply fresh_unused].
  - apply lookup_insert_eq.
  - unfold field. rewrite lookup_insert_eq.
    by destruct (own_renamed (heap w) (own d "task")) as (_ & -> & _).
Qed.

(** C8: for a draft that can be unpacked, [add] hands axios one request, a
    POST to [/tasks] whose body has exactly three properties: [title], the
    draft's title; [description], the fixed text; and [completed_at], which
    is a [Date] made at the time of the call when the draft's [isComplete]
    is true (truthy), and [null] otherwise. This holds whatever the reply. *)
Theorem C8_create_request_body (w : world) (taskData : value) (r : reply) :
  nullish taskData = false →
  ∃ body completedAt,
    sent (addTask kBaseUrl taskData r w).2
      = sent w ++ [Post [Subst kBaseUrl; Lit "/tasks"] (VRef body)] ∧
    heap (addTask kBaseUrl taskData r w).2 !! body
      = Some (HObject (<["title" := prop (heap w) taskData "title"]>
                      (<["description" := VStr "created in Task List Front End"]>
                      (<["completed_at" := completedAt]> ∅)))) ∧
    if truthy (prop (heap w) taskData "isComplete")
    then ∃ date, completedAt = VRef date ∧
                 heap (addTask kBaseUrl taskData r w).2 !! date = Some (HDate (clock w))
    else completedAt = VNull.
Proof.
  intros Hdraft.
  destruct (addTaskAsync_run kBaseUrl taskData r w Hdraft)
    as (body & completedAt & w2 & (_ & _ & _ & Hsent & _ & Hbody & Hdate) & Hrun).
  exists body, completedAt.
  assert (Hend : sent (addTask kBaseUrl taskData r w).2 = sent w2 ∧
                 heap w2 ⊆ heap (addTask kBaseUrl taskData r w).2).
  { unfold addTask. run. rewrite Hrun. destruct r as [d|e]; [|done].
    destruct (nullish d || nullish (prop (heap w2) d "task")); [done|].
    split; [done|]. apply alloc_grows. }
  destruct Hend as [-> Hsub]. split_and!.
  - done.
  - by apply (lookup_weaken _ _ _ _ Hbody Hsub).
  - destruct (truthy _); [|done]. destruct Hdate as (date & -> & _ & Hd).
    exists date. split; [done|]. by apply (lookup_weaken _ _ _ _ Hd Hsub).
Qed.

(** C9: whatever the reply, [add] leaves the collection as it was or puts
    one task after all the others; [toggleComplete] keeps every position,
    each holding either the task it held or the one replacement; [remove]
    keeps a sublist of the collection, so the tasks that stay are in the
    order they had. [refresh], the fourth operation, leaves the collection
    as it was or replaces it by objects that are all new, so there it has
    no task that stays to keep in order. *)
Theorem C9_order_is_preserved (w : world) (r : reply) :
  (∀ taskData,
     tasks (addTask kBaseUrl taskData r w).2 = tasks w ∨
     ∃ task, tasks (addTask kBaseUrl taskData r w).2 = tasks w ++ [task]) ∧
  (∀ id, ∃ newTask (replaced : loc → bool),
     tasks (updateTask kBaseUrl id r w).2
       = map (λ task, if replaced task then newTask else task) (tasks w)) ∧
  (∀ id, ∃ keep : loc → bool,
     tasks (deleteTask kBaseUrl id r w).2 = List.filter keep (tasks w) ∧
     sublist (tasks (deleteTask kBaseUrl id r w).2) (tasks w)) ∧
  (tasks (refreshTasks kBaseUrl r w).2 = tasks w ∨
   Forall (λ t, heap w !! t = None) (tasks (refreshTasks kBaseUrl r w).2)).
Proof.
  split_and!; [| | |
    unfold refreshTasks; run;
    pose proof (getTasksAsync_tasks kBaseUrl r w) as Ht;
    pose proof (getTasksAsync_fresh kBaseUrl r w) as Hnew;
    destruct (getTasksAsync kBaseUrl r w) as [[ts|e] w1]; cbn [snd] in *;
    [right; by apply (Hnew ts w1) | by left]].
  - intros taskData. unfold addTask. run.
    pose proof (addTaskAsync_tasks kBaseUrl taskData r w) as Ht.
    destruct (addTaskAsync kBaseUrl taskData r w) as [[t|e] w1]; cbn [snd] in *.
    + right. exists t. by rewrite Ht.
    + by left.
  - intros id. unfold updateTask. run.
    destruct (find _ (tasks w)) as [t0|].
    + set (b0 := negb _).
      pose proof (updateTaskAsync_tasks kBaseUrl id b0 r w) as Ht.
      destruct (updateTaskAsync kBaseUrl id b0 r w) as [[t|e] w1]; cbn [snd] in *.
      * rewrite Ht. by eexists t, (λ task, strict_eq _ _).
      * exists 0, (λ _, false). by rewrite map_unchanged.
    + exists 0, (λ _, false). by rewrite map_unchanged.
  - intros id. unfold deleteTask. run.
    pose proof (deleteTaskAsync_tasks kBaseUrl id r w) as Ht.
    destruct (deleteTaskAsync kBaseUrl id r w) as [[[]|e] w1]; run; cbn [snd] in Ht.
    + rewrite Ht. eexists. split; [reflexivity|]. apply filter_sublist_of.
    + rewrite Ht. exists (λ _, true). by rewrite filter_keeps_all.
Qed.

(** C10: renaming a wire record gives an object with the record's [id],
    [title] and [description] and with its [is_complete] under [isComplete]
    (and no [is_complete]); renaming that object back gives a record with
    the same four wire properties, so a boolean completion flag is the same
    boolean on both sides. *)
Theorem C10_renaming_round_trip (w : world) (l : loc) (rec : gmap string value) :
  heap w !! l = Some (HObject rec) →
  ∃ t w1 back w2,
    taskApiToJson (VRef l) w = (Return t, w1) ∧
    taskJsonToApi (VRef t) w1 = (Return back, w2) ∧
    field (heap w1) t "id" = own rec "id" ∧
    field (heap w1) t "title" = own rec "title" ∧
    field (heap w1) t "description" = own rec "description" ∧
    field (heap w1) t "isComplete" = own rec "is_complete" ∧
    field (heap w1) t "is_complete" = VUndefined ∧
    field (heap w2) back "id" = own rec "id" ∧
    field (heap w2) back "title" = own rec "title" ∧
    field (heap w2) back "description" = own rec "description" ∧
    field (heap w2) back "is_complete" = own rec "is_complete" ∧
    (∀ b, own rec "is_complete" = VBool b →
          field (heap w1) t "isComplete" = VBool b ∧
          field (heap w2) back "is_complete" = VBool b).
Proof.
  intros Hl. rewrite taskApiToJson_object by done.
  set (t := fresh (dom (heap w))).
  set (w1 := set_heap _ w).
  assert (Hwire : ∀ k, prop (heap w) (VRef l) k = own rec k).
  { intros k. cbn [prop]. unfold field. by rewrite Hl. }
  assert (Ht : ∀ k, prop (heap w1) (VRef t) k = own (renamed (heap w) (VRef l)) k).
  { intros k. cbn [prop]. unfold field, w1. cbn [heap set_heap].
    by rewrite lookup_insert_eq. }
  exists t, w1. eexists _, _. split; [done|]. split.
  { unfold taskJsonToApi. run. reflexivity. }
  cbn [heap set_heap]. fold (heap w1).
  assert (Hback : ∀ k, field (<[fresh (dom (heap w1)) := HObject
            (<["description" := prop (heap w1) (VRef t) "description"]>
            (<["id" := prop (heap w1) (VRef t) "id"]>
            (<["is_complete" := prop (heap w1) (VRef t) "isComplete"]>
            (<["title" := prop (heap w1) (VRef t) "title"]> ∅))))]> (heap w1))
          (fresh (dom (heap w1))) k
        = own (<["description" := prop (heap w1) (VRef t) "description"]>
              (<["id" := prop (heap w1) (VRef t) "id"]>
              (<["is_complete" := prop (heap w1) (VRef t) "isComplete"]>
              (<["title" := prop (heap w1) (VRef t) "title"]> ∅)))) k).
  { intros k. unfold field. by rewrite lookup_insert_eq. }
  assert (H4 : field (heap w1) t "id" = own rec "id" ∧
               field (heap w1) t "title" = own rec "title" ∧
               field (heap w1) t "description" = own rec "description" ∧
               field (heap w1) t "isComplete" = own rec "is_complete" ∧
               field (heap w1) t "is_complete" = VUndefined).
  { change (field (heap w1) t) with (prop (heap w1) (VRef t)).
    rewrite !Ht, <- !Hwire. by split_and!. }
  destruct H4 as (Hid & Htitle & Hdesc & Hflag & Hnone).
  fold w1. rewrite !Hback.
  change (field (heap w1) t) with (prop (heap w1) (VRef t)) in *.
  split_and!; try done.
  intros b Hb. by rewrite Hflag, Hb.
Qed.

End Claims.

(** ** The claims on the scenarios *)

Lemma C1_refresh_overwrites_scenario :
  ∃ w',
    refreshTasks base (Fulfilled (VRef 1)) list_world = (Return tt, w') ∧
    Forall2 (λ t x, heap w' !! t = Some (HObject (renamed (heap list_world) x)))
            (tasks w') [VRef 2; VRef 3] ∧
    Forall (λ t, heap list_world !! t = None) (tasks w') ∧
    (∀ prior, tasks (refreshTasks base (Fulfilled (VRef 1)) (set_tasks prior list_world)).2
              = tasks w').
Proof.
  apply (C1_refresh_overwrites base list_world 1 [VRef 2; VRef 3]).
  - vm_compute. reflexivity.
  - repeat constructor; vm_compute; eauto.
Defined.

Lemma C3_toggle_scenario :
  ∃ newTask w',
    updateTask base (VNum 1) (Fulfilled (VRef 2)) store_world = (Return tt, w') ∧
    sent w' = sent store_world ++
      [Patch [Subst base; Lit "/tasks/"; Subst (VNum 1); Lit "/";
              Subst (VStr (if negb (truthy (field (heap store_world) 0 "isComplete"))
                           then "mark_complete" else "mark_incomplete"))]] ∧
    heap store_world !! newTask = None ∧
    heap w' = <[newTask := HObject (renamed (heap store_world) (own store_reply "task"))]>
                (heap store_world) ∧
    field (heap w') newTask "isComplete"
      = VBool (negb (truthy (field (heap store_world) 0 "isComplete"))) ∧
    length (tasks w') = length (tasks store_world) ∧
    (∀ i t, tasks store_world !! i = Some t →
       tasks w' !! i = Some (if strict_eq (field (heap store_world) t "id") (VNum 1)
                             then newTask else t)) ∧
    (∀ l, l ≠ newTask → heap w' !! l = heap store_world !! l) ∧
    (NoDup (ids store_world) →
     toggle_flips base store_world (VNum 1) (Fulfilled (VRef 2))).
Proof.
  apply (C3_toggle_flips_when_answered base store_world (VNum 1) 0 2 store_reply).
  - vm_compute. reflexivity.
  - vm_compute. reflexivity.
  - vm_compute. reflexivity.
  - intros req Hreq. vm_compute in Hreq. injection Hreq as <-.
    vm_compute. split; reflexivity.
Defined.

(** The server answers the update of task 1 with the record still
    incomplete: the toggle succeeds without a fault and logs nothing, task 1
    is replaced by an object whose [isComplete] is [false], as it was
    before, and the outcome of the specification does not hold. *)
Lemma C3_unflipped_reply_is_accepted :
  find (λ task, strict_eq (field (heap stale_world) task "id") (VNum 1)) (tasks stale_world)
    = Some 0 ∧
  field (heap stale_world) 0 "isComplete" = VBool false ∧
  fst (updateTask base (VNum 1) (Fulfilled (VRef 2)) stale_world) = Return tt ∧
  console (updateTask base (VNum 1) (Fulfilled (VRef 2)) stale_world).2 = [] ∧
  tasks (updateTask base (VNum 1) (Fulfilled (VRef 2)) stale_world).2 = [4; 1] ∧
  field (heap (updateTask base (VNum 1) (Fulfilled (VRef 2)) stale_world).2) 4 "isComplete"
    = VBool false ∧
  ¬ toggle_flips base stale_world (VNum 1) (Fulfilled (VRef 2)).
Proof.
  split_and!; try (vm_compute; reflexivity).
  intros (w' & Hrun & _ & Hflip).
  apply (f_equal snd) in Hrun. cbn [snd] in Hrun. subst w'.
  specialize (Hflip 0%nat 0 eq_refl).
  replace (strict_eq (field (heap stale_world) 0 "id") (VNum 1)) with true in Hflip
    by (vm_compute; reflexivity).
  destruct Hflip as (t' & Ht' & Hbad).
  vm_compute in Ht'. injection Ht' as <-.
  vm_compute in Hbad. discriminate Hbad.
Qed.

Lemma C4_toggle_absent_scenario :
  updateTask base (VNum 7) (Fulfilled VNull) toggle_world = (Return tt, toggle_world) ∧
  tasks (updateTask base (VNum 7) (Fulfilled VNull) toggle_world).2 = tasks toggle_world ∧
  sent (updateTask base (VNum 7) (Fulfilled VNull) toggle_world).2 = sent toggle_world.
Proof.
  apply (C4_toggle_absent_is_noop base toggle_world (VNum 7) (Fulfilled VNull)).
  intros t Ht. apply list_elem_of_singleton in Ht. subst t. vm_compute. discriminate.
Defined.

Lemma C5_toggle_request_scenario :
  sent (updateTask base (VNum 1) (Rejected VNull) toggle_world).2 =
    sent toggle_world ++
      [Patch [Subst base; Lit "/tasks/"; Subst (VNum 1); Lit "/";
              Subst (VStr (if negb (truthy (field (heap toggle_world) 0 "isComplete"))
                           then "mark_complete" else "mark_incomplete"))]] ∧
  "mark_complete" ≠ "mark_incomplete".
Proof.
  apply (C5_toggle_requests_opposite base toggle_world (VNum 1) 0 (Rejected VNull)).
  vm_compute. reflexivity.
Defined.

Lemma C7_add_scenario :
  ∃ task w',
    addTask base (VRef 0) (Fulfilled (VRef 1)) add_world = (Return tt, w') ∧
    tasks w' = tasks add_world ++ [task] ∧
    heap add_world !! task = None ∧
    heap w' !! task = Some (HObject (renamed (heap add_world) (own task_reply "task"))) ∧
    field (heap w') task "id" = prop (heap add_world) (own task_reply "task") "id".
Proof.
  apply (C7_add_appends_one base add_world (VRef 0) 1 task_reply).
  - reflexivity.
  - vm_compute. reflexivity.
  - vm_compute. reflexivity.
  - vm_compute. eauto.
Defined.

Lemma C8_create_body_scenario :
  ∃ body completedAt,
    sent (addTask base (VRef 0) (Fulfilled (VRef 1)) add_world).2
      = sent add_world ++ [Post [Subst base; Lit "/tasks"] (VRef body)] ∧
    heap (addTask base (VRef 0) (Fulfilled (VRef 1)) add_world).2 !! body
      = Some (HObject (<["title" := VStr "B"]>
                      (<["description" := VStr "created in Task List Front End"]>
                      (<["completed_at" := completedAt]> ∅)))) ∧
    ∃ date, completedAt = VRef date ∧
            heap (addTask base (VRef 0) (Fulfilled (VRef 1)) add_world).2 !! date
              = Some (HDate 1700000000000).
Proof.
  apply (C8_create_request_body base add_world (VRef 0) (Fulfilled (VRef 1))).
  reflexivity.
Defined.

Lemma C10_renaming_scenario :
  ∃ t w1 back w2,
    taskApiToJson (VRef 2) toggle_world = (Return t, w1) ∧
    taskJsonToApi (VRef t) w1 = (Return back, w2) ∧
    field (heap w1) t "id" = own wire_A "id" ∧
    field (heap w1) t "title" = own wire_A "title" ∧
    field (heap w1) t "description" = own wire_A "description" ∧
    field (heap w1) t "isComplete" = own wire_A "is_complete" ∧
    field (heap w1) t "is_complete" = VUndefined ∧
    field (heap w2) back "id" = own wire_A "id" ∧
    field (heap w2) back "title" = own wire_A "title" ∧
    field (heap w2) back "description" = own wire_A "description" ∧
    field (heap w2) back "is_complete" = own wire_A "is_complete" ∧
    (∀ b, own wire_A "is_complete" = VBool b →
          field (heap w1) t "isComplete" = VBool b ∧
          field (heap w2) back "is_complete" = VBool b).
Proof.
  apply (C10_renaming_round_trip toggle_world 2 wire_A).
  vm_compute. reflexivity.
Defined.

(** ** The helpers, outcome by outcome *)

Lemma dom_renamed (h : gmap loc hobj) (v : value) : dom (renamed h v) = four_keys.
Proof.
  unfold renamed, four_keys. rewrite !dom_insert_L, dom_empty_L. set_solver.
Qed.

Lemma internal_task_mono (h h' : gmap loc hobj) (t : loc) :
  h ⊆ h' → internal_task h t → internal_task h' t.
Proof.
  intros Hsub (o & Ho & Hdom). exists o. split; [|done].
  by apply (lookup_weaken _ _ _ _ Ho Hsub).
Qed.

Lemma internal_task_fresh (h : gmap loc hobj) (v : value) :
  internal_task (<[fresh (dom h) := HObject (renamed h v)]> h) (fresh (dom h)).
Proof. eexists. split; [apply lookup_insert_eq|apply dom_renamed]. Qed.

(** Renaming an array either gives one new internal object per element, or
    stops with a [TypeError] at a [null] or [undefined] element; only the
    heap may differ afterwards, and it has only grown. *)
Lemma map_elems_cases (xs : list value) :
  ∀ w,
    match map_elems taskApiToJson xs w with
    | (Return ts, w1) =>
        Forall (λ x, nullish x = false) xs ∧ length ts = length xs ∧
        Forall (λ t, heap w !! t = None ∧ internal_task (heap w1) t) ts ∧
        heap w ⊆ heap w1 ∧ tasks w1 = tasks w ∧ sent w1 = sent w ∧
        console w1 = console w
    | (Throw e, w1) =>
        e = TypeError ∧ Exists (λ x, nullish x = true) xs ∧
        heap w ⊆ heap w1 ∧ tasks w1 = tasks w ∧ sent w1 = sent w ∧
        console w1 = console w
    end.
Proof.
  induction xs as [|x xs IH]; intros w.
  - cbn. by repeat split.
  - cbn [map_elems]. unfold bind, ret. destruct (nullish x) eqn:Hx.
    { rewrite taskApiToJson_nullish by done. split_and!; try done. by left. }
    rewrite taskApiToJson_object by done.
    set (w0 := set_heap _ w). specialize (IH w0).
    assert (Hgrow : heap w ⊆ heap w0) by apply alloc_grows.
    destruct (map_elems taskApiToJson xs w0) as [[ys|e] w2].
    + destruct IH as (Hxs & Hlen & Hys & Hsub & Ht & Hs & Hc).
      split_and!; try done.
      * by constructor.
      * cbn. by rewrite Hlen.
      * constructor.
        -- split; [apply fresh_unused|].
           eapply internal_task_mono; [exact Hsub|apply internal_task_fresh].
        -- eapply Forall_impl; [exact Hys|]. intros t [Hnew Hint].
           split; [by eapply unused_below|done].
      * by etrans.
    + destruct IH as (He & Hxs & Hsub & Ht & Hs & Hc).
      split_and!; try done; [by right|by etrans].
Qed.

Section Outcomes.

Variable kBaseUrl : value.

Lemma getTasksAsync_cases (r : reply) (w : world) :
  match getTasksAsync kBaseUrl r w with
  | (Return ts, w1) =>
      (∃ la xs, r = Fulfilled (VRef la) ∧ heap w !! la = Some (HArray xs) ∧
                Forall (λ x, nullish x = false) xs ∧ length ts = length xs) ∧
      Forall (λ t, heap w !! t = None ∧ internal_task (heap w1) t) ts ∧
      heap w ⊆ heap w1 ∧ tasks w1 = tasks w ∧ console w1 = console w ∧
      sent w1 = sent w ++ [Get [Subst kBaseUrl; Lit "/tasks"]]
  | (Throw e, w1) =>
      e = Error [Lit "error fetching tasks"] ∧
      (∃ raw, console w1 = console w ++ [LogValue raw] ∧
              (raw = TypeError ∨ ∃ reason, r = Rejected reason ∧ raw = Rejection reason)) ∧
      (∀ d, r = Fulfilled d → malformed_listing (heap w) d) ∧
      heap w ⊆ heap w1 ∧ tasks w1 = tasks w ∧
      sent w1 = sent w ++ [Get [Subst kBaseUrl; Lit "/tasks"]]
  end.
Proof.
  unfold getTasksAsync, array_map, malformed_listing. run.
  destruct r as [d|reason]; run.
  - destruct d as [| | | | |la];
      try (split_and!; try done; [by eexists; split; [|left] | by intros ? [= <-]]).
    destruct (heap w !! la) as [[o|xs|ms]|] eqn:Hla;
      try (split_and!; try done;
           [by eexists; split; [|left] | intros ? [= <-]; by rewrite Hla]).
    match goal with |- context [map_elems _ xs ?w0] =>
      pose proof (map_elems_cases xs w0) as H;
      destruct (map_elems taskApiToJson xs w0) as [[ts|e] w1] end.
    + destruct H as (Hxs & Hlen & Hts & Hsub & Ht & Hs & Hc).
      split_and!; try done. by exists la, xs.
    + destruct H as (-> & Hxs & Hsub & Ht & Hs & Hc). run.
      split_and!; try done.
      * eexists. split; [by rewrite Hc|by left].
      * intros ? [= <-]. by rewrite Hla.
  - split_and!; try done. eexists. split; [done|]. right. by eexists.
Qed.

Lemma updateTaskAsync_cases (id : value) (b : bool) (r : reply) (w : world) :
  match updateTaskAsync kBaseUrl id b r w with
  | (Return t, w1) =>
      (∃ d, r = Fulfilled d ∧ nullish d = false ∧
            nullish (prop (heap w) d "task") = false ∧
            heap w1 = <[t := HObject (renamed (heap w) (prop (heap w) d "task"))]> (heap w)) ∧
      t = fresh (dom (heap w)) ∧ tasks w1 = tasks w ∧ console w1 = console w
  | (Throw e, w1) =>
      e = Error [Lit "error updating task "; Subst id] ∧
      (∃ raw, console w1 = console w ++ [LogValue raw] ∧
              (raw = TypeError ∨ ∃ reason, r = Rejected reason ∧ raw = Rejection reason)) ∧
      (∀ d, r = Fulfilled d → malformed_task (heap w) d) ∧
      heap w1 = heap w ∧ tasks w1 = tasks w
  end.
Proof.
  unfold updateTaskAsync, malformed_task. run. destruct r as [d|reason]; run.
  - destruct (nullish d) eqn:Hd; run.
    { split_and!; try done; [by eexists; split; [|left] | intros ? [= <-]; by left]. }
    destruct (nullish (prop (heap w) d "task")) eqn:Ht.
    + rewrite taskApiToJson_nullish by done.
      split_and!; try done; [by eexists; split; [|left] | intros ? [= <-]; by right].
    + rewrite taskApiToJson_object by done. split_and!; try done. by exists d.
  - split_and!; try done. eexists. split; [done|]. right. by eexists.
Qed.

Lemma deleteTaskAsync_cases (id : value) (r : reply) (w : world) :
  match deleteTaskAsync kBaseUrl id r w with
  | (Return _, w1) =>
      (∃ d, r = Fulfilled d) ∧ heap w1 = heap w ∧ tasks w1 = tasks w ∧
      console w1 = console w
  | (Throw e, w1) =>
      e = Error [Lit "error deleting task "; Subst id] ∧
      (∃ reason, r = Rejected reason ∧
                 console w1 = console w ++ [LogValue (Rejection reason)]) ∧
      heap w1 = heap w ∧ tasks w1 = tasks w
  end.
Proof.
  destruct r as [d|reason]; cbn.
  - split_and!; try done. by exists d.
  - split_and!; try done. by exists reason.
Qed.

Lemma addTaskAsync_cases (taskData : value) (r : reply) (w : world) :
  match addTaskAsync kBaseUrl taskData r w with
  | (Return t, w1) =>
      nullish taskData = false ∧ (∃ d, r = Fulfilled d) ∧
      heap w !! t = None ∧ internal_task (heap w1) t ∧
      heap w ⊆ heap w1 ∧ tasks w1 = tasks w ∧ console w1 = console w
  | (Throw e, w1) =>
      ((nullish taskData = true ∧ e = TypeError ∧ w1 = w) ∨
       (nullish taskData = false ∧ e = Error [Lit "error creating task"] ∧
        ∃ raw, console w1 = console w ++ [LogValue raw] ∧
               (raw = TypeError ∨ ∃ reason, r = Rejected reason ∧ raw = Rejection reason))) ∧
      heap w ⊆ heap w1 ∧ tasks w1 = tasks w
  end.
Proof.
  destruct (nullish taskData) eqn:Hdraft.
  { unfold addTaskAsync. run. rewrite Hdraft. split; [by left|done]. }
  destruct (addTaskAsync_run kBaseUrl taskData r w Hdraft)
    as (body & completedAt & w2 & (Hsub & Htasks & Hconsole & _) & ->).
  destruct r as [d|reason].
  - destruct (nullish d || nullish (prop (heap w2) d "task")).
    + split; [|done]. right. split_and!; try done.
      eexists. cbn [console set_console]. rewrite Hconsole. split; [done|by left].
    + cbn [heap set_heap tasks console]. split_and!; try done.
      * by exists d.
      * eapply unused_below; [exact Hsub|apply fresh_unused].
      * apply internal_task_fresh.
      * etrans; [exact Hsub|apply alloc_grows].
  - split; [|done]. right. split_and!; try done.
    eexists. cbn [console set_console]. rewrite Hconsole. split; [done|].
    right. by eexists.
Qed.

End Outcomes.

(** ** The operations, beyond the claims *)

Lemma Forall_list_filter {A} (P : A → Prop) (f : A → bool) (l : list A) :
  Forall P l → Forall P (List.filter f l).
Proof.
  induction 1 as [|x l Hx _ IH]; cbn; [constructor|].
  destruct (f x); [by constructor|done].
Qed.

Lemma well_formed_in_heap (w : world) (t : loc) :
  well_formed w → t ∈ tasks w → is_Some (heap w !! t).
Proof.
  intros Hwf Ht. unfold well_formed in Hwf. rewrite Forall_forall in Hwf.
  destruct (Hwf t Ht) as (o & Ho & _). by eexists.
Qed.

Section Beyond.

Variable kBaseUrl : value.

Lemma addTaskAsync_sent (taskData : value) (r : reply) (w : world) :
  ∃ reqs, sent (addTaskAsync kBaseUrl taskData r w).2 = sent w ++ reqs ∧
          (length reqs ≤ 1)%nat.
Proof.
  destruct (nullish taskData) eqn:Hdraft.
  { exists []. unfold addTaskAsync. run. rewrite Hdraft. cbn.
    split; [by rewrite app_nil_r|lia]. }
  destruct (addTaskAsync_run kBaseUrl taskData r w Hdraft)
    as (body & completedAt & w2 & (_ & _ & _ & Hsent & _) & ->).
  eexists [_]. split; [|cbn; lia].
  destruct r as [d|e]; [|done].
  by destruct (nullish d || nullish (prop (heap w2) d "task")).
Qed.

(** The heap after an operation. *)
Lemma heap_after_operation (w : world) (r : reply) :
  heap w ⊆ heap (refreshTasks kBaseUrl r w).2 ∧
  (∀ id, heap w ⊆ heap (updateTask kBaseUrl id r w).2) ∧
  (∀ id, heap (deleteTask kBaseUrl id r w).2 = heap w) ∧
  (∀ taskData, heap w ⊆ heap (addTask kBaseUrl taskData r w).2).
Proof.
  split_and!.
  - unfold refreshTasks. run.
    pose proof (getTasksAsync_cases kBaseUrl r w) as H.
    destruct (getTasksAsync kBaseUrl r w) as [[ts|e] w1]; cbn [snd heap set_tasks set_console].
    + by destruct H as (_ & _ & ? & _).
    + by destruct H as (_ & _ & _ & ? & _).
  - intros id. unfold updateTask. run.
    destruct (find _ (tasks w)) as [t0|]; [|done].
    set (b0 := negb _).
    pose proof (updateTaskAsync_cases kBaseUrl id b0 r w) as H.
    destruct (updateTaskAsync kBaseUrl id b0 r w) as [[t|e] w1];
      cbn [snd heap set_tasks set_console].
    + destruct H as ((d & _ & _ & _ & ->) & -> & _). apply alloc_grows.
    + by destruct H as (_ & _ & _ & -> & _).
  - intros id. by destruct r.
  - intros taskData. unfold addTask. run.
    pose proof (addTaskAsync_cases kBaseUrl taskData r w) as H.
    destruct (addTaskAsync kBaseUrl taskData r w) as [[t|e] w1];
      cbn [snd heap set_tasks set_console].
    + by destruct H as (_ & _ & _ & _ & ? & _).
    + by destruct H as (_ & ? & _).
Qed.

(** Well-formedness after an operation. *)
Lemma well_formed_after_operation (w : world) (r : reply) :
  well_formed w →
  well_formed (refreshTasks kBaseUrl r w).2 ∧
  (∀ id, well_formed (updateTask kBaseUrl id r w).2) ∧
  (∀ id, well_formed (deleteTask kBaseUrl id r w).2) ∧
  (∀ taskData, well_formed (addTask kBaseUrl taskData r w).2).
Proof.
  intros Hwf. unfold well_formed in *. split_and!.
  - unfold refreshTasks. run.
    pose proof (getTasksAsync_cases kBaseUrl r w) as H.
    destruct (getTasksAsync kBaseUrl r w) as [[ts|e] w1];
      cbn [snd heap tasks set_tasks set_console].
    + destruct H as (_ & Hts & _). eapply Forall_impl; [exact Hts|]. by intros t [_ ?].
    + destruct H as (_ & _ & _ & Hsub & -> & _).
      eapply Forall_impl; [exact Hwf|]. intros t. by apply internal_task_mono.
  - intros id. unfold updateTask. run.
    destruct (find _ (tasks w)) as [t0|]; [|done].
    set (b0 := negb _).
    pose proof (updateTaskAsync_cases kBaseUrl id b0 r w) as H.
    destruct (updateTaskAsync kBaseUrl id b0 r w) as [[t|e] w1];
      cbn [snd heap tasks set_tasks set_console].
    + destruct H as ((d & _ & _ & _ & Hheap) & -> & -> & _).
      apply Forall_map. eapply Forall_impl; [exact Hwf|]. intros t Ht. cbn beta.
      rewrite Hheap. destruct (strict_eq _ _).
      * apply internal_task_fresh.
      * eapply internal_task_mono; [apply alloc_grows|done].
    + destruct H as (_ & _ & _ & -> & ->). done.
  - intros id. destruct r as [d|e]; cbn; [|done]. by apply Forall_list_filter.
  - intros taskData. unfold addTask. run.
    pose proof (addTaskAsync_cases kBaseUrl taskData r w) as H.
    destruct (addTaskAsync kBaseUrl taskData r w) as [[t|e] w1];
      cbn [snd heap tasks set_tasks set_console].
    + destruct H as (_ & _ & _ & Ht & Hsub & -> & _).
      apply Forall_app. split; [|by constructor].
      eapply Forall_impl; [exact Hwf|]. intros u. by apply internal_task_mono.
    + destruct H as (_ & Hsub & ->).
      eapply Forall_impl; [exact Hwf|]. intros u. by apply internal_task_mono.
Qed.

(** X3: an operation writes to the console only when it fails, and then it
    leaves the collection alone and writes two lines: the raw fault, and
    the message of the simplified error, whose text is fixed by the
    operation (and the id, for update and delete) and never carries the
    reason of the fault. The one other line is the [TypeError] of a draft
    that is [null] or [undefined]. *)
Theorem faults_are_logged_twice (w : world) (r : reply) :
  (console (refreshTasks kBaseUrl r w).2 = console w ∨
   tasks (refreshTasks kBaseUrl r w).2 = tasks w ∧
   ∃ raw, console (refreshTasks kBaseUrl r w).2
          = console w ++ [LogValue raw; LogMessage (Error [Lit "error fetching tasks"])]) ∧
  (∀ id,
     console (updateTask kBaseUrl id r w).2 = console w ∨
     tasks (updateTask kBaseUrl id r w).2 = tasks w ∧
     ∃ raw, console (updateTask kBaseUrl id r w).2
            = console w ++ [LogValue raw;
                            LogMessage (Error [Lit "error updating task "; Subst id])]) ∧
  (∀ id,
     console (deleteTask kBaseUrl id r w).2 = console w ∨
     tasks (deleteTask kBaseUrl id r w).2 = tasks w ∧
     ∃ raw, console (deleteTask kBaseUrl id r w).2
            = console w ++ [LogValue raw;
                            LogMessage (Error [Lit "error deleting task "; Subst id])]) ∧
  (∀ taskData,
     console (addTask kBaseUrl taskData r w).2 = console w ∨
     tasks (addTask kBaseUrl taskData r w).2 = tasks w ∧
     ((∃ raw, console (addTask kBaseUrl taskData r w).2
              = console w ++ [LogValue raw; LogMessage (Error [Lit "error creating task"])]) ∨
      nullish taskData = true ∧
      console (addTask kBaseUrl taskData r w).2 = console w ++ [LogMessage TypeError])).
Proof.
  split_and!.
  - unfold refreshTasks. run.
    pose proof (getTasksAsync_cases kBaseUrl r w) as H.
    destruct (getTasksAsync kBaseUrl r w) as [[ts|e] w1];
      cbn [snd heap tasks console set_tasks set_console].
    + left. by destruct H as (_ & _ & _ & _ & ? & _).
    + right. destruct H as (-> & (raw & -> & _) & _ & _ & -> & _).
      split; [done|]. exists raw. by rewrite <- app_assoc.
  - intros id. unfold updateTask. run.
    destruct (find _ (tasks w)) as [t0|]; [|by left].
    set (b0 := negb _).
    pose proof (updateTaskAsync_cases kBaseUrl id b0 r w) as H.
    destruct (updateTaskAsync kBaseUrl id b0 r w) as [[t|e] w1];
      cbn [snd heap tasks console set_tasks set_console].
    + left. by destruct H as (_ & _ & _ & ?).
    + right. destruct H as (-> & (raw & -> & _) & _ & _ & ->).
      split; [done|]. exists raw. by rewrite <- app_assoc.
  - intros id. destruct r as [d|e]; cbn; [by left|right].
    split; [done|]. eexists. by rewrite <- app_assoc.
  - intros taskData. unfold addTask. run.
    pose proof (addTaskAsync_cases kBaseUrl taskData r w) as H.
    destruct (addTaskAsync kBaseUrl taskData r w) as [[t|e] w1];
      cbn [snd heap tasks console set_tasks set_console].
    + left. by destruct H as (_ & _ & _ & _ & _ & _ & ?).
    + right. destruct H as ([(Hd & -> & ->)|(_ & -> & raw & -> & _)] & _ & Ht).
      * split; [done|]. by right.
      * split; [done|]. left. exists raw. by rewrite <- app_assoc.
Qed.

(** The requests of an operation. *)
Lemma sent_after_operation (w : world) (r : reply) :
  sent (refreshTasks kBaseUrl r w).2 = sent w ++ [Get [Subst kBaseUrl; Lit "/tasks"]] ∧
  (∀ id, sent (deleteTask kBaseUrl id r w).2
         = sent w ++ [Delete [Subst kBaseUrl; Lit "/tasks/"; Subst id]]) ∧
  (∀ taskData, nullish taskData = true →
               sent (addTask kBaseUrl taskData r w).2 = sent w) ∧
  (∀ ev, ∃ reqs, sent (dispatch kBaseUrl ev r w).2 = sent w ++ reqs ∧ (length reqs ≤ 1)%nat).
Proof.
  assert (Hrefresh : sent (refreshTasks kBaseUrl r w).2
                     = sent w ++ [Get [Subst kBaseUrl; Lit "/tasks"]]).
  { unfold refreshTasks. run.
    pose proof (getTasksAsync_cases kBaseUrl r w) as H.
    destruct (getTasksAsync kBaseUrl r w) as [[ts|e] w1];
      cbn [snd sent set_tasks set_console].
    - by destruct H as (_ & _ & _ & _ & _ & ?).
    - by destruct H as (_ & _ & _ & _ & _ & ?). }
  assert (Hdelete : ∀ id, sent (deleteTask kBaseUrl id r w).2
                     = sent w ++ [Delete [Subst kBaseUrl; Lit "/tasks/"; Subst id]]).
  { intros id. by destruct r. }
  assert (Hadd : ∀ taskData, ∃ reqs,
             sent (addTask kBaseUrl taskData r w).2 = sent w ++ reqs ∧ (length reqs ≤ 1)%nat).
  { intros taskData. unfold addTask. run.
    destruct (addTaskAsync_sent taskData r w) as (reqs & Hs & Hlen).
    exists reqs. split; [|done].
    by destruct (addTaskAsync kBaseUrl taskData r w) as [[t|e] w1]. }
  split_and!; try done.
  - intros taskData Hd. unfold addTask, addTaskAsync. run. by rewrite Hd.
  - intros [|id|id|taskData]; cbn [dispatch].
    + eexists [_]. split; [done|cbn; lia].
    + unfold updateTask. run. destruct (find _ (tasks w)) as [t0|].
      * set (b0 := negb _). eexists [_]. split; [|cbn; lia].
        pose proof (updateTaskAsync_sent kBaseUrl id b0 r w) as Hs.
        destruct (updateTaskAsync kBaseUrl id b0 r w) as [[t|e] w1]; exact Hs.
      * exists []. split; [by rewrite app_nil_r|cbn; lia].
    + eexists [_]. split; [done|cbn; lia].
    + apply Hadd.
Qed.


(** A successful update, whatever record comes back. *)
Lemma updateTask_fulfilled (w : world) (id d : value) (t0 : loc) :
  find (λ task, strict_eq (field (heap w) task "id") id) (tasks w) = Some t0 →
  nullish d = false →
  nullish (prop (heap w) d "task") = false →
  ∃ w',
    updateTask kBaseUrl id (Fulfilled d) w = (Return tt, w') ∧
    heap w' = <[fresh (dom (heap w))
                := HObject (renamed (heap w) (prop (heap w) d "task"))]> (heap w) ∧
    console w' = console w ∧
    tasks w' = map (λ task,
                      if strict_eq (field (heap w) task "id")
                                   (prop (heap w) (prop (heap w) d "task") "id")
                      then fresh (dom (heap w)) else task)
                   (tasks w).
Proof.
  intros Hfind Hd Htask.
  set (target := negb (truthy (field (heap w) t0 "isComplete"))).
  destruct (updateTaskAsync_fulfilled kBaseUrl id target d w Hd Htask)
    as (w1 & Hrun & Hheap & Htasks & Hconsole).
  set (rec := prop (heap w) d "task") in *.
  set (newTask := fresh (dom (heap w))) in *.
  eexists. split.
  { unfold updateTask. run. rewrite Hfind. fold target. rewrite Hrun. reflexivity. }
  cbn [heap tasks console set_tasks]. split_and!; try done.
  rewrite Htasks. apply map_ext. intros t.
  assert (Hnew : field (heap w1) newTask "id" = prop (heap w) rec "id").
  { unfold field. rewrite Hheap, lookup_insert_eq.
    by destruct (own_renamed (heap w) rec) as (_ & -> & _). }
  rewrite Hnew.
  destruct (decide (t = newTask)) as [->|Hne]; [by repeat case_match|].
  unfold field at 1. by rewrite Hheap, lookup_insert_ne.
Qed.

(** A successful create. *)
Lemma addTask_fulfilled (w : world) (taskData : value) (ld : loc) (d : gmap string value) :
  nullish taskData = false →
  heap w !! ld = Some (HObject d) →
  nullish (own d "task") = false →
  in_heap (heap w) (own d "task") →
  ∃ task w',
    addTask kBaseUrl taskData (Fulfilled (VRef ld)) w = (Return tt, w') ∧
    tasks w' = tasks w ++ [task] ∧
    heap w ⊆ heap w' ∧
    heap w !! task = None ∧
    field (heap w') task "id" = prop (heap w) (own d "task") "id".
Proof.
  intros Hdraft Hld Htask Hin.
  destruct (addTaskAsync_run kBaseUrl taskData (Fulfilled (VRef ld)) w Hdraft)
    as (body & completedAt & w2 & (Hsub & Htasks & _) & Hrun).
  assert (Hrec : prop (heap w2) (VRef ld) "task" = own d "task").
  { cbn [prop]. unfold field. by rewrite (lookup_weaken _ _ _ _ Hld Hsub). }
  rewrite Hrec, Htask in Hrun. cbn [nullish orb] in Hrun.
  rewrite (renamed_mono (heap w) (heap w2)) in Hrun by done.
  set (task := fresh (dom (heap w2))) in *.
  eexists task, _. split.
  { unfold addTask. run. rewrite Hrun. reflexivity. }
  cbn [heap tasks set_tasks set_heap]. rewrite Htasks. split_and!.
  - done.
  - etrans; [exact Hsub|apply alloc_grows].
  - eapply unused_below; [exact Hsub|apply fresh_unused].
  - unfold field. rewrite lookup_insert_eq.
    by destruct (own_renamed (heap w) (own d "task")) as (_ & -> & _).
Qed.

Lemma ids_mono (w : world) (h' : gmap loc hobj) :
  well_formed w → heap w ⊆ h' →
  map (λ task, field h' task "id") (tasks w) = ids w.
Proof.
  intros Hwf Hsub. unfold ids. apply map_ext_in. intros t Ht.
  apply field_mono; [done|]. apply well_formed_in_heap; [done|].
  by apply list_elem_of_In.
Qed.

Lemma map_filter_sublist {A B} (g : A → B) (f : A → bool) (l : list A) :
  sublist (map g (List.filter f l)) (map g l).
Proof.
  induction l as [|x l IH]; cbn; [constructor|].
  destruct (f x); cbn; by constructor.
Qed.

(** The ids of the collection after a toggle and after a removal. *)
Lemma ids_after_operation (w : world) (r : reply) (id : value) :
  well_formed w →
  ids (updateTask kBaseUrl id r w).2 = ids w ∧
  sublist (ids (deleteTask kBaseUrl id r w).2) (ids w).
Proof.
  intros Hwf. split.
  - unfold updateTask. run.
    destruct (find _ (tasks w)) as [t0|]; [|done].
    set (b0 := negb _).
    pose proof (updateTaskAsync_cases kBaseUrl id b0 r w) as H.
    destruct (updateTaskAsync kBaseUrl id b0 r w) as [[t|e] w1];
      cbn [snd heap tasks set_tasks set_console].
    + destruct H as ((d & _ & _ & _ & Hheap) & -> & Ht & _).
      unfold ids. cbn [heap tasks set_tasks]. rewrite Ht, map_map.
      apply map_ext_in. intros u Hu.
      assert (Hin : is_Some (heap w !! u)).
      { apply well_formed_in_heap; [done|]. by apply list_elem_of_In. }
      assert (Hu1 : field (heap w1) u "id" = field (heap w) u "id").
      { apply field_mono; [|done]. rewrite Hheap. apply alloc_grows. }
      unfold strict_eq. case_bool_decide as Heq; [|done]. by rewrite <- Heq.
    + destruct H as (_ & _ & _ & Hheap & Ht).
      unfold ids. cbn [heap tasks set_console]. by rewrite Hheap, Ht.
  - destruct r as [d|e]; cbn; [|done]. apply map_filter_sublist.
Qed.

(** Removing twice, and removing two ids in either order. *)
Lemma filter_twice {A} (f : A → bool) (l : list A) :
  List.filter f (List.filter f l) = List.filter f l.
Proof.
  apply filter_keeps_all. intros x Hx.
  apply list_elem_of_In, filter_In in Hx. by destruct Hx.
Qed.

Lemma filter_swap {A} (f g : A → bool) (l : list A) :
  List.filter f (List.filter g l) = List.filter g (List.filter f l).
Proof.
  induction l as [|x l IH]; [done|]. cbn [List.filter].
  destruct (g x) eqn:Hg, (f x) eqn:Hf; cbn [List.filter];
    rewrite ?Hg, ?Hf; by rewrite IH.
Qed.

Lemma dispatch_returns (ev : event) (r : reply) (w : world) :
  ∃ w', dispatch kBaseUrl ev r w = (Return tt, w').
Proof.
  destruct ev as [|id|id|taskData]; cbn [dispatch].
  - apply refreshTasks_contains.
  - apply updateTask_contains.
  - apply deleteTask_contains.
  - apply addTask_contains.
Qed.

Lemma dispatch_step (ev : event) (r : reply) (w : world) :
  well_formed w →
  ∃ w' reqs,
    dispatch kBaseUrl ev r w = (Return tt, w') ∧ well_formed w' ∧
    heap w ⊆ heap w' ∧ sent w' = sent w ++ reqs ∧ (length reqs ≤ 1)%nat.
Proof.
  intros Hwf.
  destruct (dispatch_returns ev r w) as (w' & Hrun).
  destruct (sent_after_operation w r) as (_ & _ & _ & Hsent).
  destruct (Hsent ev) as (reqs & Hreqs & Hlen).
  destruct (heap_after_operation w r) as (Hh1 & Hh2 & Hh3 & Hh4).
  destruct (well_formed_after_operation w r Hwf) as (Hw1 & Hw2 & Hw3 & Hw4).
  exists w', reqs. rewrite Hrun in Hreqs. split_and!; try done.
  - destruct ev as [|id|id|taskData]; cbn [dispatch] in Hrun.
    + by rewrite Hrun in Hw1.
    + specialize (Hw2 id). by rewrite Hrun in Hw2.
    + specialize (Hw3 id). by rewrite Hrun in Hw3.
    + specialize (Hw4 taskData). by rewrite Hrun in Hw4.
  - destruct ev as [|id|id|taskData]; cbn [dispatch] in Hrun.
    + by rewrite Hrun in Hh1.
    + specialize (Hh2 id). by rewrite Hrun in Hh2.
    + specialize (Hh3 id). rewrite Hrun in Hh3. cbn [snd] in Hh3. by rewrite Hh3.
    + specialize (Hh4 taskData). by rewrite Hrun in Hh4.
Qed.
(** X1: an operation never changes or drops an object that exists: after
    it, whatever the reply, every location of the heap holds what it held
    before; [remove] allocates nothing at all. *)
Theorem operations_never_mutate (w : world) (r : reply) :
  heap w ⊆ heap (refreshTasks kBaseUrl r w).2 ∧
  (∀ id, heap w ⊆ heap (updateTask kBaseUrl id r w).2) ∧
  (∀ id, heap (deleteTask kBaseUrl id r w).2 = heap w) ∧
  (∀ taskData, heap w ⊆ heap (addTask kBaseUrl taskData r w).2).
Proof. exact (heap_after_operation w r). Qed.

(** X2: the four operations keep the collection well formed: if every task
    is an object with exactly the properties [description], [id],
    [isComplete] and [title], the same holds after the operation, whatever
    the reply. No task ever carries the wire name [is_complete]. *)
Theorem operations_keep_well_formed (w : world) (r : reply) :
  well_formed w →
  well_formed (refreshTasks kBaseUrl r w).2 ∧
  (∀ id, well_formed (updateTask kBaseUrl id r w).2) ∧
  (∀ id, well_formed (deleteTask kBaseUrl id r w).2) ∧
  (∀ taskData, well_formed (addTask kBaseUrl taskData r w).2).
Proof. exact (well_formed_after_operation w r). Qed.

(** X4: [refresh] always hands axios exactly one GET of [/tasks], and
    [remove] exactly one DELETE of [/tasks/{id}], also when no task of the
    collection has that id; [add] sends nothing when its draft is [null] or
    [undefined]; no operation sends more than one request. *)
Theorem requests_sent (w : world) (r : reply) :
  sent (refreshTasks kBaseUrl r w).2 = sent w ++ [Get [Subst kBaseUrl; Lit "/tasks"]] ∧
  (∀ id, sent (deleteTask kBaseUrl id r w).2
         = sent w ++ [Delete [Subst kBaseUrl; Lit "/tasks/"; Subst id]]) ∧
  (∀ taskData, nullish taskData = true →
               sent (addTask kBaseUrl taskData r w).2 = sent w) ∧
  (∀ ev, ∃ reqs, sent (dispatch kBaseUrl ev r w).2 = sent w ++ reqs ∧ (length reqs ≤ 1)%nat).
Proof. exact (sent_after_operation w r). Qed.

(** X5: a successful [toggleComplete] replaces the tasks whose id equals
    the id of the record that came back, whatever id was asked for: each
    such position gets the one new object and every other position keeps
    its task; when no task has the returned id the collection is the same
    as before, although the request succeeded. *)
Theorem toggle_follows_returned_id (w : world) (id d : value) (t0 : loc) :
  find (λ task, strict_eq (field (heap w) task "id") id) (tasks w) = Some t0 →
  nullish d = false →
  nullish (prop (heap w) d "task") = false →
  let returned := prop (heap w) (prop (heap w) d "task") "id" in
  ∃ newTask w',
    updateTask kBaseUrl id (Fulfilled d) w = (Return tt, w') ∧
    heap w !! newTask = None ∧
    (∀ i t, tasks w !! i = Some t →
       tasks w' !! i
         = Some (if strict_eq (field (heap w) t "id") returned then newTask else t)) ∧
    ((∀ t, t ∈ tasks w → field (heap w) t "id" ≠ returned) → tasks w' = tasks w).
Proof.
  intros Hfind Hd Htask returned.
  destruct (updateTask_fulfilled w id d t0 Hfind Hd Htask)
    as (w' & Hrun & _ & _ & Htasks).
  exists (fresh (dom (heap w))), w'. split_and!.
  - done.
  - apply fresh_unused.
  - intros i t Hi. by rewrite Htasks, map_lookup, Hi.
  - intros Hnone. rewrite Htasks.
    transitivity (map (λ task : loc, task) (tasks w)); [|apply map_id].
    apply map_ext_in. intros t Ht. unfold strict_eq.
    rewrite bool_decide_eq_false_2; [done|]. apply Hnone. by apply list_elem_of_In.
Qed.

(** X6: on a well-formed collection [toggleComplete] never changes the
    sequence of ids, whatever the reply and whatever record comes back, and
    [remove] keeps a subsequence of it; so both keep ids unique when they
    were. *)
Theorem toggle_and_remove_keep_ids (w : world) (r : reply) (id : value) :
  well_formed w →
  ids (updateTask kBaseUrl id r w).2 = ids w ∧
  sublist (ids (deleteTask kBaseUrl id r w).2) (ids w) ∧
  (NoDup (ids w) →
   NoDup (ids (updateTask kBaseUrl id r w).2) ∧
   NoDup (ids (deleteTask kBaseUrl id r w).2)).
Proof.
  intros Hwf. destruct (ids_after_operation w r id Hwf) as [Hupd Hdel].
  split_and!; try done. intros Hnd. split.
  - by rewrite Hupd.
  - by eapply sublist_NoDup.
Qed.

(** X7: [add] does not look at the ids it already has: when the record
    that comes back carries the id of a task of the collection, it is
    appended all the same and the collection then has that id twice. *)
Theorem add_does_not_deduplicate
    (w : world) (taskData : value) (ld : loc) (d : gmap string value) (t : loc) :
  well_formed w →
  nullish taskData = false →
  heap w !! ld = Some (HObject d) →
  nullish (own d "task") = false →
  in_heap (heap w) (own d "task") →
  t ∈ tasks w →
  field (heap w) t "id" = prop (heap w) (own d "task") "id" →
  length (tasks (addTask kBaseUrl taskData (Fulfilled (VRef ld)) w).2)
    = S (length (tasks w)) ∧
  ¬ NoDup (ids (addTask kBaseUrl taskData (Fulfilled (VRef ld)) w).2).
Proof.
  intros Hwf Hdraft Hld Htask Hin Ht Hid.
  destruct (addTask_fulfilled w taskData ld d Hdraft Hld Htask Hin)
    as (task & w' & -> & Htasks & Hsub & _ & Hnew).
  cbn [snd]. split.
  - rewrite Htasks, length_app. cbn. lia.
  - unfold ids. rewrite Htasks, map_app. cbn [map]. rewrite Hnew.
    rewrite (ids_mono w (heap w') Hwf Hsub).
    intros Hnd. apply NoDup_app in Hnd as (_ & Hdisj & _).
    apply (Hdisj (prop (heap w) (own d "task") "id")); [|by left].
    rewrite <- Hid. unfold ids. apply list_elem_of_In.
    apply (in_map (λ task, field (heap w) task "id")). by apply list_elem_of_In.
Qed.

(** X8: [refresh] takes a fulfilled listing exactly when its data is an
    array with no [null] or [undefined] element. Any other data is a fault
    like a rejection: the collection stays, and the console gets the
    [TypeError] and the message of the simplified error. *)
Theorem refresh_needs_an_array (w : world) (d : value) :
  (malformed_listing (heap w) d ↔ raises (getTasksAsync kBaseUrl (Fulfilled d)) w) ∧
  (malformed_listing (heap w) d →
   tasks (refreshTasks kBaseUrl (Fulfilled d) w).2 = tasks w ∧
   console (refreshTasks kBaseUrl (Fulfilled d) w).2
     = console w ++ [LogValue TypeError; LogMessage (Error [Lit "error fetching tasks"])]).
Proof.
  pose proof (getTasksAsync_cases kBaseUrl (Fulfilled d) w) as H.
  assert (Hraise : malformed_listing (heap w) d →
                   ∃ w1, getTasksAsync kBaseUrl (Fulfilled d) w
                         = (Throw (Error [Lit "error fetching tasks"]), w1) ∧
                         tasks w1 = tasks w ∧
                         console w1 = console w ++ [LogValue TypeError]).
  { intros Hbad.
    destruct (getTasksAsync kBaseUrl (Fulfilled d) w) as [[ts|e] w1].
    - destruct H as ((la & xs & [= ->] & Hla & Hxs & _) & _). exfalso.
      unfold malformed_listing in Hbad. rewrite Hla in Hbad.
      apply Exists_exists in Hbad as (x & Hx & Hnull).
      rewrite Forall_forall in Hxs. specialize (Hxs x Hx). congruence.
    - destruct H as (-> & (raw & Hc & [->|(? & [=] & _)]) & _ & _ & Ht & _).
      by exists w1. }
  split; [split|].
  - intros Hbad. destruct (Hraise Hbad) as (w1 & Hrun & _). by eexists _, _.
  - intros (e & w1 & Hrun). rewrite Hrun in H.
    destruct H as (_ & _ & Hbad & _). by apply Hbad.
  - intros Hbad. destruct (Hraise Hbad) as (w1 & Hrun & Ht & Hc).
    unfold refreshTasks. run. rewrite Hrun. cbn [snd tasks console set_console].
    by rewrite Ht, Hc, <- app_assoc.
Qed.

(** X9: [toggleComplete] on a present task takes a fulfilled update only
    when the response has a body with a [task]; otherwise nothing changes,
    neither the collection nor the heap, and the console gets the
    [TypeError] and the message naming the id. *)
Theorem toggle_needs_a_task (w : world) (id d : value) (t0 : loc) :
  find (λ task, strict_eq (field (heap w) task "id") id) (tasks w) = Some t0 →
  malformed_task (heap w) d →
  ∃ w',
    updateTask kBaseUrl id (Fulfilled d) w = (Return tt, w') ∧
    tasks w' = tasks w ∧ heap w' = heap w ∧
    console w' = console w ++ [LogValue TypeError;
                               LogMessage (Error [Lit "error updating task "; Subst id])].
Proof.
  intros Hfind Hbad. unfold updateTask. run. rewrite Hfind.
  set (b0 := negb _).
  pose proof (updateTaskAsync_cases kBaseUrl id b0 (Fulfilled d) w) as H.
  destruct (updateTaskAsync kBaseUrl id b0 (Fulfilled d) w) as [[t|e] w1].
  - destruct H as ((d' & [= <-] & Hd & Ht & _) & _). exfalso.
    destruct Hbad; congruence.
  - destruct H as (-> & (raw & Hc & [->|(? & [=] & _)]) & _ & Hh & Ht).
    eexists. split; [reflexivity|]. cbn [tasks heap console set_console].
    by rewrite Hc, <- app_assoc.
Qed.

(** X10: likewise [add], once its request is out, takes a fulfilled create
    only when the response has a body with a [task]; otherwise the
    collection stays and the console gets the [TypeError] and the message
    of the simplified error. *)
Theorem add_needs_a_task (w : world) (taskData d : value) :
  nullish taskData = false →
  in_heap (heap w) d →
  malformed_task (heap w) d →
  ∃ w',
    addTask kBaseUrl taskData (Fulfilled d) w = (Return tt, w') ∧
    tasks w' = tasks w ∧
    console w' = console w ++ [LogValue TypeError;
                               LogMessage (Error [Lit "error creating task"])].
Proof.
  intros Hdraft Hin Hbad.
  destruct (addTaskAsync_run kBaseUrl taskData (Fulfilled d) w Hdraft)
    as (body & completedAt & w2 & (Hsub & Htasks & Hconsole & _) & Hrun).
  rewrite (prop_mono (heap w) (heap w2)) in Hrun by done.
  assert (Hcond : nullish d || nullish (prop (heap w) d "task") = true).
  { destruct Hbad as [->| ->]; [done|apply orb_true_r]. }
  rewrite Hcond in Hrun.
  eexists. split.
  { unfold addTask. run. rewrite Hrun. reflexivity. }
  cbn [tasks console set_console]. by rewrite Htasks, Hconsole, <- app_assoc.
Qed.

(** X11: successful removals compose like filters: removing an id a second
    time changes nothing, and removing two ids gives the same collection in
    either order. *)
Theorem remove_twice_and_in_any_order (w : world) (id id' d1 d2 : value) :
  tasks (deleteTask kBaseUrl id (Fulfilled d2)
           (deleteTask kBaseUrl id (Fulfilled d1) w).2).2
    = tasks (deleteTask kBaseUrl id (Fulfilled d1) w).2 ∧
  tasks (deleteTask kBaseUrl id' (Fulfilled d2)
           (deleteTask kBaseUrl id (Fulfilled d1) w).2).2
    = tasks (deleteTask kBaseUrl id (Fulfilled d2)
               (deleteTask kBaseUrl id' (Fulfilled d1) w).2).2.
Proof.
  unfold deleteTask, deleteTaskAsync. run. split.
  - apply filter_twice.
  - apply filter_swap.
Qed.

(** X12: a draft that is [null] or [undefined] stops [add] before anything
    is built or sent: the world is the one before the call but for one
    console line, the message of the [TypeError]. *)
Theorem add_of_no_draft (w : world) (taskData : value) (r : reply) :
  nullish taskData = true →
  addTask kBaseUrl taskData r w
    = (Return tt, set_console (console w ++ [LogMessage TypeError]) w).
Proof.
  intros Hd. unfold addTask, addTaskAsync. run. by rewrite Hd.
Qed.

(** X13: any sequence of events, each with any reply, run from a
    well-formed collection (the empty one of a new component, say) ends
    normally in a well-formed collection; no object that existed is
    changed, and at most one request per event has gone out, after the ones
    sent before. *)
Theorem session_keeps_invariants (evs : list (event * reply)) (w : world) :
  well_formed w →
  ∃ w' reqs,
    session kBaseUrl evs w = (Return tt, w') ∧ well_formed w' ∧
    heap w ⊆ heap w' ∧ sent w' = sent w ++ reqs ∧ (length reqs ≤ length evs)%nat.
Proof.
  revert w. induction evs as [|[ev r] evs IH]; intros w Hwf.
  - exists w, []. cbn. split_and!; try done. by rewrite app_nil_r.
  - destruct (dispatch_step ev r w Hwf) as (w1 & reqs1 & Hrun & Hwf1 & Hsub1 & Hs1 & Hl1).
    destruct (IH w1 Hwf1) as (w' & reqs & Hrest & Hwf' & Hsub & Hs & Hl).
    exists w', (reqs1 ++ reqs). split_and!.
    + cbn [session]. unfold bind. by rewrite Hrun.
    + done.
    + by etrans.
    + by rewrite Hs, Hs1, app_assoc.
    + rewrite length_app. cbn [length]. lia.
Qed.

(** X14: on a well-formed collection with no task of the returned id, a
    successful [add] followed by a successful [remove] of that id gives
    back the collection from before. *)
Theorem add_then_remove_restores
    (w : world) (taskData d2 : value) (ld : loc) (d : gmap string value) :
  well_formed w →
  nullish taskData = false →
  heap w !! ld = Some (HObject d) →
  nullish (own d "task") = false →
  in_heap (heap w) (own d "task") →
  (∀ t, t ∈ tasks w → field (heap w) t "id" ≠ prop (heap w) (own d "task") "id") →
  tasks (deleteTask kBaseUrl (prop (heap w) (own d "task") "id") (Fulfilled d2)
           (addTask kBaseUrl taskData (Fulfilled (VRef ld)) w).2).2
    = tasks w.
Proof.
  intros Hwf Hdraft Hld Htask Hin Hnone.
  destruct (addTask_fulfilled w taskData ld d Hdraft Hld Htask Hin)
    as (task & w' & -> & Htasks & Hsub & _ & Hnew).
  cbn [snd]. unfold deleteTask, deleteTaskAsync. run.
  rewrite Htasks, List.filter_app. cbn [List.filter].
  unfold strict_eq at 2. rewrite bool_decide_eq_true_2 by done. cbn [negb].
  rewrite app_nil_r. apply filter_keeps_all. intros t Ht.
  unfold strict_eq. rewrite negb_true_iff, bool_decide_eq_false.
  rewrite (field_mono (heap w) (heap w')); [by apply Hnone|done|].
  by apply well_formed_in_heap.
Qed.

End Beyond.

(** ** The further properties on a scenario *)

Lemma store_world_well_formed : well_formed store_world.
Proof.
  repeat constructor; (eexists; split; [vm_compute; reflexivity|]);
    unfold four_keys; vm_compute; reflexivity.
Qed.

Lemma operations_keep_well_formed_scenario :
  well_formed (refreshTasks base (Fulfilled (VRef 4)) store_world).2 ∧
  (∀ id, well_formed (updateTask base id (Fulfilled (VRef 4)) store_world).2) ∧
  (∀ id, well_formed (deleteTask base id (Fulfilled (VRef 4)) store_world).2) ∧
  (∀ taskData, well_formed (addTask base taskData (Fulfilled (VRef 4)) store_world).2).
Proof.
  apply (operations_keep_well_formed base store_world (Fulfilled (VRef 4))).
  exact store_world_well_formed.
Defined.

Lemma toggle_follows_returned_id_scenario :
  ∃ newTask w',
    updateTask base (VNum 2) (Fulfilled (VRef 2)) store_world = (Return tt, w') ∧
    heap store_world !! newTask = None ∧
    (∀ i t, tasks store_world !! i = Some t →
       tasks w' !! i
         = Some (if strict_eq (field (heap store_world) t "id")
                      (prop (heap store_world) (prop (heap store_world) (VRef 2) "task") "id")
                 then newTask else t)) ∧
    ((∀ t, t ∈ tasks store_world →
           field (heap store_world) t "id"
           ≠ prop (heap store_world) (prop (heap store_world) (VRef 2) "task") "id") →
     tasks w' = tasks store_world).
Proof.
  apply (toggle_follows_returned_id base store_world (VNum 2) (VRef 2) 1);
    vm_compute; reflexivity.
Defined.

Lemma toggle_and_remove_keep_ids_scenario :
  ids (updateTask base (VNum 2) (Fulfilled (VRef 2)) store_world).2 = ids store_world ∧
  sublist (ids (deleteTask base (VNum 2) (Fulfilled (VRef 2)) store_world).2)
          (ids store_world) ∧
  (NoDup (ids store_world) →
   NoDup (ids (updateTask base (VNum 2) (Fulfilled (VRef 2)) store_world).2) ∧
   NoDup (ids (deleteTask base (VNum 2) (Fulfilled (VRef 2)) store_world).2)).
Proof.
  apply (toggle_and_remove_keep_ids base store_world (Fulfilled (VRef 2)) (VNum 2)).
  exact store_world_well_formed.
Defined.

Lemma add_does_not_deduplicate_scenario :
  length (tasks (addTask base (VRef 5) (Fulfilled (VRef 2)) store_world).2)
    = S (length (tasks store_world)) ∧
  ¬ NoDup (ids (addTask base (VRef 5) (Fulfilled (VRef 2)) store_world).2).
Proof.
  apply (add_does_not_deduplicate base store_world (VRef 5) 2 store_reply 0).
  - exact store_world_well_formed.
  - reflexivity.
  - vm_compute. reflexivity.
  - vm_compute. reflexivity.
  - vm_compute. eauto.
  - by left.
  - vm_compute. reflexivity.
Defined.

Lemma toggle_needs_a_task_scenario :
  ∃ w',
    updateTask base (VNum 1) (Fulfilled VNull) store_world = (Return tt, w') ∧
    tasks w' = tasks store_world ∧ heap w' = heap store_world ∧
    console w' = console store_world
                 ++ [LogValue TypeError;
                     LogMessage (Error [Lit "error updating task "; Subst (VNum 1)])].
Proof.
  apply (toggle_needs_a_task base store_world (VNum 1) VNull 0).
  - vm_compute. reflexivity.
  - left. reflexivity.
Defined.

Lemma add_needs_a_task_scenario :
  ∃ w',
    addTask base (VRef 5) (Fulfilled (VRef 4)) store_world = (Return tt, w') ∧
    tasks w' = tasks store_world ∧
    console w' = console store_world
                 ++ [LogValue TypeError; LogMessage (Error [Lit "error creating task"])].
Proof.
  apply (add_needs_a_task base store_world (VRef 5) (VRef 4)).
  - reflexivity.
  - vm_compute. eauto.
  - right. vm_compute. reflexivity.
Defined.

Lemma add_of_no_draft_scenario :
  addTask base VUndefined (Fulfilled (VRef 7)) store_world
    = (Return tt, set_console (console store_world ++ [LogMessage TypeError]) store_world).
Proof.
  apply (add_of_no_draft base store_world VUndefined (Fulfilled (VRef 7))).
  reflexivity.
Defined.

Lemma session_keeps_invariants_scenario :
  ∃ w' reqs,
    session base busy_day (created (heap store_world) 0) = (Return tt, w') ∧
    well_formed w' ∧
    heap (created (heap store_world) 0) ⊆ heap w' ∧
    sent w' = sent (created (heap store_world) 0) ++ reqs ∧
    (length reqs ≤ length busy_day)%nat.
Proof.
  apply (session_keeps_invariants base busy_day (created (heap store_world) 0)).
  constructor.
Defined.

Lemma add_then_remove_restores_scenario :
  tasks (deleteTask base (prop (heap (set_tasks [0] store_world)) (own created_reply "task") "id")
           (Fulfilled VNull)
           (addTask base (VRef 5) (Fulfilled (VRef 7)) (set_tasks [0] store_world)).2).2
    = tasks (set_tasks [0] store_world).
Proof.
  apply (add_then_remove_restores base (set_tasks [0] store_world) (VRef 5) VNull 7
           created_reply).
  - constructor; [|constructor]. eexists. split; [vm_compute; reflexivity|].
    unfold four_keys. vm_compute. reflexivity.
  - reflexivity.
  - vm_compute. reflexivity.
  - vm_compute. reflexivity.
  - vm_compute. eauto.
  - intros t Ht. apply list_elem_of_singleton in Ht. subst t. vm_compute. discriminate.
Defined.

(** The day, run: the list is fetched, the failed toggle is logged, task B
    is appended, task 1 is removed. *)
Example busy_day_run :
  let w' := (session base busy_day (created (heap store_world) 0)).2 in
  ids w' = [VNum 2] ∧
  length (sent w') = 4%nat ∧
  console w' = [LogValue (Rejection VNull);
                LogMessage (Error [Lit "error updating task "; Subst (VNum 1)])].
Proof. vm_compute. by repeat split. Qed.
